(** * IntelliHub request router: a shallow embedding of
      [hub/services/openrouter.py] and [hub/services/gemini.py]

    Python values are modelled as follows.
    - [str] is a sequence of Unicode code points ([list N]); [u "..."]
      reads an ASCII literal.
    - JSON-shaped values ([resp.json()], payloads, normalized responses)
      are the inductive [json].
    - The process state ([os.environ], [_response_cache], [_metrics],
      the clock, the remote providers and the requests sent so far) is
      the record [world]; effectful functions take a world and return an
      [outcome] with the world after the call.
    - [print] calls are not modelled. *)

From Stdlib Require Import ZArith NArith QArith Lia List String Ascii Bool DecimalNat.
From stdpp Require Import base option gmap list.
Import ListNotations.
Local Open Scope Z_scope.

(* ===================================================================== *)
(** ** Text *)
(* ===================================================================== *)

Module Py.

Definition char := N.
Definition str := list N.

(** An ASCII literal as a [str]. *)
Definition u (s : string) : str := List.map N_of_ascii (list_ascii_of_string s).

Definition ch (a : ascii) : char := N_of_ascii a.

Definition NL : char := 10%N.
Definition SP : char := 32%N.
Definition BULLET : char := 8226%N.

Fixpoint str_eqb (a b : str) : bool :=
  match a, b with
  | [], [] => true
  | x :: a', y :: b' => N.eqb x y && str_eqb a' b'
  | _, _ => false
  end.

(** [s.startswith(t)] *)
Fixpoint startswith (t s : str) : bool :=
  match t, s with
  | [], _ => true
  | _ :: _, [] => false
  | x :: t', y :: s' => N.eqb x y && startswith t' s'
  end.

(** [t in s] for strings. *)
Fixpoint str_in (t s : str) : bool :=
  startswith t s ||
  match s with
  | [] => false
  | _ :: s' => str_in t s'
  end.

(** [bool(s)] for a string. *)
Definition truthy (s : str) : bool :=
  match s with [] => false | _ => true end.

(** [bool(x)] for an [Optional[str]]. *)
Definition opt_truthy (o : option str) : bool :=
  match o with Some s => truthy s | None => false end.

(** [o or ''] for an [Optional[str]]. *)
Definition or_empty (o : option str) : str :=
  match o with Some (c :: s) => c :: s | _ => [] end.

(** Lower-casing of one code point.  Basic Latin and Latin-1 are
    tabulated; other code points are left as they are. *)
Definition lower_char (c : char) : char :=
  if ((65 <=? c) && (c <=? 90))%N then (c + 32)%N
  else if ((192 <=? c) && (c <=? 222) && negb (c =? 215))%N then (c + 32)%N
  else c.

(** [s.lower()] *)
Definition lower (s : str) : str := List.map lower_char s.

(** [str.isspace] on one code point (also the class [\s] of [re]). *)
Definition isspace (c : char) : bool :=
  (((9 <=? c) && (c <=? 13)) || ((28 <=? c) && (c <=? 32))
   || (c =? 133) || (c =? 160) || (c =? 5760)
   || ((8192 <=? c) && (c <=? 8202))
   || (c =? 8232) || (c =? 8233) || (c =? 8239) || (c =? 8287)
   || (c =? 12288))%N.

(** [s.lstrip()], [s.rstrip()], [s.strip()] *)
Fixpoint lstrip (s : str) : str :=
  match s with
  | c :: s' => if isspace c then lstrip s' else s
  | [] => []
  end.

Fixpoint rstrip (s : str) : str :=
  match s with
  | [] => []
  | c :: s' =>
      match rstrip s' with
      | [] => if isspace c then [] else [c]
      | r => c :: r
      end
  end.

Definition strip (s : str) : str := rstrip (lstrip s).

(** [sep.join(parts)] *)
Fixpoint join (sep : str) (parts : list str) : str :=
  match parts with
  | [] => []
  | [p] => p
  | p :: rest => p ++ sep ++ join sep rest
  end.

(** [s.split('\n')]: splitting on one code point. *)
Fixpoint split_on (c : char) (s : str) : list str :=
  match s with
  | [] => [[]]
  | x :: s' =>
      if N.eqb x c then [] :: split_on c s'
      else match split_on c s' with
           | l :: ls => (x :: l) :: ls
           | [] => [[x]]
           end
  end.

(** [s.replace(old, new)] for a non-empty [old]: every occurrence, left
    to right, not overlapping.  [skip] counts the code points of the
    occurrence being replaced that are still to be dropped. *)
Fixpoint replace_from (old new s : str) (skip : nat) : str :=
  match s with
  | [] => []
  | c :: s' =>
      match skip with
      | S k => replace_from old new s' k
      | O =>
          if startswith old s
          then new ++ replace_from old new s' (Nat.pred (length old))
          else c :: replace_from old new s' O
      end
  end.

Definition replace (old new s : str) : str :=
  match old with
  | [] => s
  | _ => replace_from old new s O
  end.

(** [s[:n]] *)
Definition take_prefix (n : nat) (s : str) : str := firstn n s.

(** [str(n)] for a non-negative integer, in decimal. *)
Fixpoint digits_of_uint (d : Decimal.uint) : str :=
  match d with
  | Decimal.Nil => []
  | Decimal.D0 d' => 48%N :: digits_of_uint d'
  | Decimal.D1 d' => 49%N :: digits_of_uint d'
  | Decimal.D2 d' => 50%N :: digits_of_uint d'
  | Decimal.D3 d' => 51%N :: digits_of_uint d'
  | Decimal.D4 d' => 52%N :: digits_of_uint d'
  | Decimal.D5 d' => 53%N :: digits_of_uint d'
  | Decimal.D6 d' => 54%N :: digits_of_uint d'
  | Decimal.D7 d' => 55%N :: digits_of_uint d'
  | Decimal.D8 d' => 56%N :: digits_of_uint d'
  | Decimal.D9 d' => 57%N :: digits_of_uint d'
  end.

Definition str_of_nat (n : nat) : str := digits_of_uint (Nat.to_uint n).

(** [str(z)] for an integer. *)
Definition str_of_Z (z : Z) : str :=
  match z with
  | Zneg p => 45%N :: str_of_nat (Pos.to_nat p)
  | _ => str_of_nat (Z.to_nat z)
  end.

End Py.
Import Py.

(* ===================================================================== *)
(** ** Task classifier *)
(* ===================================================================== *)

Definition research_terms : list str :=
  [ u "research"; u "literature review"; u "academic"; u "paper";
    u "survey"; u "citation"; u "references"; u "doi"; u "scholarly";
    u "journal"; u "systematic review" ].

Definition code_terms : list str :=
  [ u "code"; u "function"; u "bug"; u "python"; u "javascript";
    u "algorithm" ].

(** [any(term in p for term in terms)] *)
Definition any_in (terms : list str) (p : str) : bool :=
  existsb (fun term => str_in term p) terms.

Definition classify_task (prompt : str) (image_url : option str) : str :=
  let p := lower prompt in
  if any_in research_terms p then u "research"
  else if any_in code_terms p then u "code"
  else if opt_truthy image_url then u "image_reason"
  else u "general".

(* ===================================================================== *)
(** ** Regular expressions *)
(* ===================================================================== *)

(** The patterns of [clean_markdown_formatting] only repeat single
    character classes, so a pattern is a sequence of atoms: a literal, a
    repeated class (greedy or lazy, with bounds), the MULTILINE anchors
    [^] and [$], and the two ends of group 1.  Matching backtracks the way
    [re] does: a greedy repetition tries the longest run first, a lazy one
    the shortest. *)
Module Re.

Inductive atom :=
| Lit (c : char)
| Rep (cls : char -> bool) (lo : nat) (hi : option nat) (greedy : bool)
| Bol
| Eol
| GOpen
| GClose.

Definition pattern := list atom.

Definition below (hi : option nat) (n : nat) : bool :=
  match hi with Some h => Nat.ltb n h | None => true end.

(** A match found from the current position: its length and the span of
    group 1, both counted from the start of the match. *)
Definition found := (nat * option (nat * nat))%type.

(** [match_here pat prev s pos gs g]: match [pat] against [s], where
    [prev] is the code point before [s] (if any), [pos] the number of code
    points matched so far, [gs] the offset at which group 1 was opened and
    [g] its span once closed. *)
Fixpoint match_here (pat : pattern)
  : option char -> str -> nat -> option nat -> option (nat * nat) -> option found :=
  match pat with
  | [] => fun _ _ pos _ g => Some (pos, g)
  | Lit c :: rest => fun _ s pos gs g =>
      match s with
      | x :: s' => if N.eqb x c then match_here rest (Some x) s' (S pos) gs g else None
      | [] => None
      end
  | Bol :: rest => fun prev s pos gs g =>
      match prev with
      | None => match_here rest prev s pos gs g
      | Some p => if N.eqb p NL then match_here rest prev s pos gs g else None
      end
  | Eol :: rest => fun prev s pos gs g =>
      match s with
      | [] => match_here rest prev s pos gs g
      | x :: _ => if N.eqb x NL then match_here rest prev s pos gs g else None
      end
  | GOpen :: rest => fun prev s pos _ g => match_here rest prev s pos (Some pos) g
  | GClose :: rest => fun prev s pos gs g =>
      match_here rest prev s pos gs
        (match gs with Some a => Some (a, pos) | None => g end)
  | Rep cls lo hi greedy :: rest => fun prev s pos gs g =>
      (fix rep (s : str) (n : nat) (prev : option char) (pos : nat) {struct s}
         : option found :=
         if greedy then
           match
             match s with
             | x :: s' =>
                 if cls x && below hi n then rep s' (S n) (Some x) (S pos) else None
             | [] => None
             end
           with
           | Some r => Some r
           | None => if Nat.leb lo n then match_here rest prev s pos gs g else None
           end
         else
           match (if Nat.leb lo n then match_here rest prev s pos gs g else None) with
           | Some r => Some r
           | None =>
               match s with
               | x :: s' =>
                   if cls x && below hi n then rep s' (S n) (Some x) (S pos) else None
               | [] => None
               end
           end) s O prev pos
  end.

(** The text of group 1 of a match starting at [s]. *)
Definition group_text (s : str) (g : option (nat * nat)) : str :=
  match g with
  | Some (a, b) => firstn (b - a) (skipn a s)
  | None => []
  end.

(** [re.sub(pat, repl, s)] with a replacement function that may keep a
    state [St] across matches (a template such as [\1] is the function
    that ignores the state).  [repl st whole group1] gives the new state
    and the replacement text.  [skip] counts the code points of the
    current match that are still to be passed over.  No pattern of this
    file matches the empty string. *)
Fixpoint sub_from {St : Type} (pat : pattern) (repl : St -> str -> str -> St * str)
    (s : str) (prev : option char) (skip : nat) (st : St) : St * str :=
  match s with
  | [] => (st, [])
  | c :: s' =>
      match skip with
      | S k => sub_from pat repl s' (Some c) k st
      | O =>
          match match_here pat prev s O None None with
          | Some (S len, g) =>
              let '(st1, out) := repl st (firstn (S len) s) (group_text s g) in
              let '(st2, rest) := sub_from pat repl s' (Some c) len st1 in
              (st2, out ++ rest)
          | Some (O, g) =>
              let '(st1, out) := repl st [] (group_text s g) in
              let '(st2, rest) := sub_from pat repl s' (Some c) O st1 in
              (st2, out ++ c :: rest)
          | None =>
              let '(st1, rest) := sub_from pat repl s' (Some c) O st in
              (st1, c :: rest)
          end
      end
  end.

Definition sub_with {St : Type} (pat : pattern) (repl : St -> str -> str -> St * str)
    (st : St) (s : str) : St * str :=
  sub_from pat repl s None O st.

(** [re.sub(pat, template, s)] where the template is a function of the
    text of group 1. *)
Definition sub (pat : pattern) (template : str -> str) (s : str) : str :=
  snd (sub_with pat (fun (st : unit) _ g1 => (st, template g1)) tt s).

(** Character classes. *)
Definition any_char (c : char) : bool := true.
Definition only (a : ascii) (c : char) : bool := N.eqb c (ch a).
Definition except (a : ascii) (c : char) : bool := negb (N.eqb c (ch a)).
(** [.] without DOTALL *)
Definition dot (c : char) : bool := negb (N.eqb c NL).

(** The runs of decimal digits (category Nd) of the Unicode tables of
    CPython 3.11: first code point and length. *)
Definition decimal_runs : list (N * N) :=
  [ (48, 10); (1632, 10); (1776, 10); (1984, 10); (2406, 10); (2534, 10);
    (2662, 10); (2790, 10); (2918, 10); (3046, 10); (3174, 10); (3302, 10);
    (3430, 10); (3558, 10); (3664, 10); (3792, 10); (3872, 10); (4160, 10);
    (4240, 10); (6112, 10); (6160, 10); (6470, 10); (6608, 10); (6784, 10);
    (6800, 10); (6992, 10); (7088, 10); (7232, 10); (7248, 10); (42528, 10);
    (43216, 10); (43264, 10); (43472, 10); (43504, 10); (43600, 10);
    (44016, 10); (65296, 10); (66720, 10); (68912, 10); (69734, 10);
    (69872, 10); (69942, 10); (70096, 10); (70384, 10); (70736, 10);
    (70864, 10); (71248, 10); (71360, 10); (71472, 10); (71904, 10);
    (72016, 10); (72784, 10); (73040, 10); (73120, 10); (92768, 10);
    (92864, 10); (93008, 10); (120782, 50); (123200, 10); (123632, 10);
    (125264, 10); (130032, 10) ]%N.

(** [\d] *)
Definition digit (c : char) : bool :=
  existsb (fun r => (fst r <=? c) && (c <? fst r + snd r))%N decimal_runs.

End Re.

(* ===================================================================== *)
(** ** Markdown cleanup *)
(* ===================================================================== *)

Definition BACKTICK : ascii := "`"%char.
Definition STAR : ascii := "*"%char.
Definition UNDERSCORE : ascii := "_"%char.

(** [r'```[\s\S]*?```'] *)
Definition re_fenced : Re.pattern :=
  [ Re.Lit (ch BACKTICK); Re.Lit (ch BACKTICK); Re.Lit (ch BACKTICK);
    Re.Rep Re.any_char 0 None false;
    Re.Lit (ch BACKTICK); Re.Lit (ch BACKTICK); Re.Lit (ch BACKTICK) ].

(** [r'`[^`]+`'] *)
Definition re_inline : Re.pattern :=
  [ Re.Lit (ch BACKTICK); Re.Rep (Re.except BACKTICK) 1 None true;
    Re.Lit (ch BACKTICK) ].

(** [r'^#{1,6}\s+(.+)$'] with MULTILINE *)
Definition re_header : Re.pattern :=
  [ Re.Bol; Re.Rep (Re.only "#"%char) 1 (Some 6%nat) true;
    Re.Rep isspace 1 None true;
    Re.GOpen; Re.Rep Re.dot 1 None true; Re.GClose; Re.Eol ].

(** [markers ([^m]+) markers] for a marker character [m] repeated [n]
    times on each side: the bold and italic patterns. *)
Definition re_emphasis (m : ascii) (n : nat) : Re.pattern :=
  repeat (Re.Lit (ch m)) n
  ++ [ Re.GOpen; Re.Rep (Re.except m) 1 None true; Re.GClose ]
  ++ repeat (Re.Lit (ch m)) n.

Definition bullet_marker (c : char) : bool :=
  N.eqb c (ch "-"%char) || N.eqb c BULLET || N.eqb c (ch STAR).

(** [r'^[\s]*[-•*]\s+'] with MULTILINE *)
Definition re_bullet : Re.pattern :=
  [ Re.Bol; Re.Rep isspace 0 None true;
    Re.Rep bullet_marker 1 (Some 1%nat) true;
    Re.Rep isspace 1 None true ].

(** [r'^[\s]*(\d+)\.\s+'] with MULTILINE *)
Definition re_numbered : Re.pattern :=
  [ Re.Bol; Re.Rep isspace 0 None true;
    Re.GOpen; Re.Rep Re.digit 1 None true; Re.GClose;
    Re.Lit (ch "."%char); Re.Rep isspace 1 None true ].

(** [r'\n{3,}'] *)
Definition re_blank_run : Re.pattern :=
  [ Re.Rep (fun c => N.eqb c NL) 3 None true ].

(** [f"___CODE_BLOCK_{i}___"] *)
Definition code_block_placeholder (i : nat) : str :=
  u "___CODE_BLOCK_" ++ str_of_nat i ++ u "___".

(** The closure [save_code_block]: the state is the list [code_blocks]. *)
Definition save_code_block (code_blocks : list str) (whole group1 : str)
  : list str * str :=
  let code_blocks := code_blocks ++ [whole] in
  (code_blocks, code_block_placeholder (length code_blocks - 1)).

(** [for i, block in enumerate(code_blocks): text = text.replace(...)] *)
Fixpoint restore_code_blocks (i : nat) (code_blocks : list str) (text : str) : str :=
  match code_blocks with
  | [] => text
  | block :: rest =>
      restore_code_blocks (S i) rest (replace (code_block_placeholder i) block text)
  end.

(** The loop over [lines] that fills [cleaned_lines]. *)
Fixpoint collect_lines (lines cleaned_lines : list str) : list str :=
  match lines with
  | [] => cleaned_lines
  | line :: rest =>
      let stripped := strip line in
      if truthy stripped || truthy (strip (List.last cleaned_lines []))
      then collect_lines rest (cleaned_lines ++ [rstrip line])
      else collect_lines rest cleaned_lines
  end.

(** [while cleaned_lines and not cleaned_lines[0].strip(): pop(0)] *)
Fixpoint drop_blank_head (cleaned_lines : list str) : list str :=
  match cleaned_lines with
  | l :: rest => if truthy (strip l) then cleaned_lines else drop_blank_head rest
  | [] => []
  end.

(** [while cleaned_lines and not cleaned_lines[-1].strip(): pop()] *)
Fixpoint drop_blank_tail (cleaned_lines : list str) : list str :=
  match cleaned_lines with
  | [] => []
  | l :: rest =>
      match drop_blank_tail rest with
      | [] => if truthy (strip l) then [l] else []
      | r => l :: r
      end
  end.

Definition clean_markdown_formatting (text : str) : str :=
  if negb (truthy text) then text else
  let code_blocks : list str := [] in
  let '(code_blocks, text) := Re.sub_with re_fenced save_code_block code_blocks text in
  let '(code_blocks, text) := Re.sub_with re_inline save_code_block code_blocks text in
  let text := Re.sub re_header (fun g1 => [NL] ++ g1 ++ [NL]) text in
  let text := Re.sub (re_emphasis STAR 3) (fun g1 => g1) text in
  let text := Re.sub (re_emphasis STAR 2) (fun g1 => g1) text in
  let text := Re.sub (re_emphasis STAR 1) (fun g1 => g1) text in
  let text := Re.sub (re_emphasis UNDERSCORE 2) (fun g1 => g1) text in
  let text := Re.sub (re_emphasis UNDERSCORE 1) (fun g1 => g1) text in
  let text := Re.sub re_bullet (fun _ => [BULLET; SP]) text in
  let text := Re.sub re_numbered (fun g1 => g1 ++ u ". ") text in
  let text := Re.sub re_blank_run (fun _ => [NL; NL]) text in
  let text := restore_code_blocks 0 code_blocks text in
  let lines := split_on NL text in
  let cleaned_lines := collect_lines lines [] in
  let cleaned_lines := drop_blank_head cleaned_lines in
  let cleaned_lines := drop_blank_tail cleaned_lines in
  join [NL] cleaned_lines.

(* ===================================================================== *)
(** ** JSON-shaped values, exceptions *)
(* ===================================================================== *)

(** What [resp.json()] can return.  A dictionary is a list of bindings in
    insertion order, looked up from the front. *)
#[warnings="-register-all"]
Inductive json :=
| JNull
| JBool (b : bool)
| JInt (z : Z)
| JFloat (q : Q)
| JStr (s : str)
| JList (l : list json)
| JDict (d : list (str * json)).

(** [type(x).__name__] *)
Definition type_name (x : json) : str :=
  match x with
  | JNull => u "NoneType"
  | JBool _ => u "bool"
  | JInt _ => u "int"
  | JFloat _ => u "float"
  | JStr _ => u "str"
  | JList _ => u "list"
  | JDict _ => u "dict"
  end.

(** [bool(x)] *)
Definition json_truthy (x : json) : bool :=
  match x with
  | JNull => false
  | JBool b => b
  | JInt z => negb (Z.eqb z 0)
  | JFloat q => negb (Z.eqb (Qnum q) 0)
  | JStr s => truthy s
  | JList l => match l with [] => false | _ => true end
  | JDict d => match d with [] => false | _ => true end
  end.

Fixpoint dict_get (d : list (str * json)) (key : str) : option json :=
  match d with
  | [] => None
  | (k, v) :: d' => if str_eqb k key then Some v else dict_get d' key
  end.

(** [d[key] = v] *)
Fixpoint dict_set (d : list (str * json)) (key : str) (v : json) : list (str * json) :=
  match d with
  | [] => [(key, v)]
  | (k, v0) :: d' =>
      if str_eqb k key then (k, v) :: d' else (k, v0) :: dict_set d' key v
  end.

(** The exception classes the router raises or meets.  [exn_str] is
    [str(e)]; the wording of the interpreter's own messages is CPython
    3.11's. *)
Inductive exn :=
| RuntimeError (msg : str)
| RateLimitExhaustedError (msg : str)
| PerplexityError (msg : str)
| LocalLLMError (msg : str)
| GeminiError (msg : str)
| AttributeError (msg : str)
| TypeError (msg : str)
| KeyError (msg : str)
| IndexError (msg : str)
| HTTPError (msg : str)
| OtherException (msg : str).

Definition exn_str (e : exn) : str :=
  match e with
  | RuntimeError m | RateLimitExhaustedError m | PerplexityError m
  | LocalLLMError m | GeminiError m | AttributeError m | TypeError m
  | KeyError m | IndexError m | HTTPError m | OtherException m => m
  end.

(** [isinstance(e, RuntimeError)]: the class itself and its subclasses. *)
Definition is_RuntimeError (e : exn) : bool :=
  match e with
  | RuntimeError _ | RateLimitExhaustedError _ | PerplexityError _
  | LocalLLMError _ => true
  | _ => false
  end.

Definition is_RateLimitExhaustedError (e : exn) : bool :=
  match e with RateLimitExhaustedError _ => true | _ => false end.

(** The result of a call: a value, or a raised exception. *)
Inductive outcome (A : Type) :=
| Return (a : A)
| Raise (e : exn).
Arguments Return {A} a.
Arguments Raise {A} e.

Definition bind {A B} (m : outcome A) (k : A -> outcome B) : outcome B :=
  match m with
  | Return a => k a
  | Raise e => Raise e
  end.

Notation "x <- m ;; k" := (bind m (fun x => k))
  (at level 100, m at next level, right associativity).

(** [x.get(key)]: [None] stands for a missing key. *)
Definition py_get (x : json) (key : str) : outcome (option json) :=
  match x with
  | JDict d => Return (dict_get d key)
  | _ => Raise (AttributeError
                  (u "'" ++ type_name x ++ u "' object has no attribute 'get'"))
  end.

(** [x[0]] *)
Definition py_first (x : json) : outcome json :=
  match x with
  | JList (e :: _) => Return e
  | JList [] => Raise (IndexError (u "list index out of range"))
  | JStr (c :: _) => Return (JStr [c])
  | JStr [] => Raise (IndexError (u "string index out of range"))
  | JDict _ => Raise (KeyError (u "0"))
  | _ => Raise (TypeError
                  (u "'" ++ type_name x ++ u "' object is not subscriptable"))
  end.

(** [o or default] where a missing value counts as [None]. *)
Definition or_else (o : option json) (default : json) : json :=
  match o with
  | Some x => if json_truthy x then x else default
  | None => default
  end.

(** [x == "text"] for a string literal. *)
Definition json_is_str (x : option json) (s : str) : bool :=
  match x with
  | Some (JStr t) => str_eqb t s
  | _ => false
  end.

(* ===================================================================== *)
(** ** Response normalizer *)
(* ===================================================================== *)

(** [clean_markdown_formatting] applied to an arbitrary value: a falsy
    value is returned as it is, a string is cleaned, and [re.sub] refuses
    anything else. *)
Definition clean_markdown_formatting_value (text : json) : outcome json :=
  if negb (json_truthy text) then Return text
  else match text with
       | JStr s => Return (JStr (clean_markdown_formatting s))
       | _ => Raise (TypeError
                       (u "expected string or bytes-like object, got '"
                        ++ type_name text ++ u "'"))
       end.

(** [[c.get("text") for c in content
      if isinstance(c, dict) and c.get("type") == "text"]] *)
Fixpoint text_parts_of (content : list json) : list (option json) :=
  match content with
  | [] => []
  | JDict d :: rest =>
      if json_is_str (dict_get d (u "type")) (u "text")
      then dict_get d (u "text") :: text_parts_of rest
      else text_parts_of rest
  | _ :: rest => text_parts_of rest
  end.

(** [filter(None, parts)] *)
Fixpoint filter_truthy (parts : list (option json)) : list json :=
  match parts with
  | [] => []
  | Some x :: rest => if json_truthy x then x :: filter_truthy rest else filter_truthy rest
  | None :: rest => filter_truthy rest
  end.

(** The items of [sep.join(items)] as strings; [i] is the index of the
    first item. *)
Fixpoint join_items (i : nat) (items : list json) : outcome (list str) :=
  match items with
  | [] => Return []
  | JStr s :: rest => r <- join_items (S i) rest ;; Return (s :: r)
  | x :: _ =>
      Raise (TypeError (u "sequence item " ++ str_of_nat i
                          ++ u ": expected str instance, "
                          ++ type_name x ++ u " found"))
  end.

(** The body of the [try] block of [extract_assistant_text]. *)
Definition extract_assistant_text_body (result : json) : outcome json :=
  c <- py_get result (u "choices") ;;
  let choices := or_else c (JList []) in
  if negb (json_truthy choices) then Return (JStr (u "(no choices in response)"))
  else
    first <- py_first choices ;;
    m <- py_get first (u "message") ;;
    let msg := match m with Some x => x | None => JDict [] end in
    content <- py_get msg (u "content") ;;
    raw_text <-
      match content with
      | Some (JList l) =>
          parts <- join_items 0 (filter_truthy (text_parts_of l)) ;;
          let joined := join [NL] parts in
          Return (JStr (if truthy joined then joined else u "(no text parts)"))
      | _ => Return (or_else content (JStr (u "(empty content)")))
      end ;;
    clean_markdown_formatting_value raw_text.

(** [str(x)] of the value the [try] block returns; it is always a
    string there. *)
Definition text_of (x : json) : str :=
  match x with JStr s => s | _ => [] end.

Definition extract_assistant_text (result : json) : str :=
  match extract_assistant_text_body result with
  | Return cleaned_text => text_of cleaned_text
  | Raise e => u "Failed to parse response: " ++ exn_str e
  end.

(* ===================================================================== *)
(** ** [hashlib.md5] and [str.encode] *)
(* ===================================================================== *)

(** MD5 (RFC 1321) on bytes, with 32-bit words as [Z] and the wrap-around
    written out. *)
Module MD5.

Definition add32 (a b : Z) : Z := (a + b) mod 2 ^ 32.
Definition not32 (a : Z) : Z := Z.lxor a 0xffffffff.
Definition rotl32 (x c : Z) : Z :=
  Z.lor (Z.shiftl x c mod 2 ^ 32) (Z.shiftr x (32 - c)).

Definition shifts : list Z :=
  [ 7; 12; 17; 22; 7; 12; 17; 22; 7; 12; 17; 22; 7; 12; 17; 22;
    5; 9; 14; 20; 5; 9; 14; 20; 5; 9; 14; 20; 5; 9; 14; 20;
    4; 11; 16; 23; 4; 11; 16; 23; 4; 11; 16; 23; 4; 11; 16; 23;
    6; 10; 15; 21; 6; 10; 15; 21; 6; 10; 15; 21; 6; 10; 15; 21 ].

Definition sines : list Z :=
  [
    0xd76aa478; 0xe8c7b756; 0x242070db; 0xc1bdceee;
    0xf57c0faf; 0x4787c62a; 0xa8304613; 0xfd469501;
    0x698098d8; 0x8b44f7af; 0xffff5bb1; 0x895cd7be;
    0x6b901122; 0xfd987193; 0xa679438e; 0x49b40821;
    0xf61e2562; 0xc040b340; 0x265e5a51; 0xe9b6c7aa;
    0xd62f105d; 0x02441453; 0xd8a1e681; 0xe7d3fbc8;
    0x21e1cde6; 0xc33707d6; 0xf4d50d87; 0x455a14ed;
    0xa9e3e905; 0xfcefa3f8; 0x676f02d9; 0x8d2a4c8a;
    0xfffa3942; 0x8771f681; 0x6d9d6122; 0xfde5380c;
    0xa4beea44; 0x4bdecfa9; 0xf6bb4b60; 0xbebfbc70;
    0x289b7ec6; 0xeaa127fa; 0xd4ef3085; 0x04881d05;
    0xd9d4d039; 0xe6db99e5; 0x1fa27cf8; 0xc4ac5665;
    0xf4292244; 0x432aff97; 0xab9423a7; 0xfc93a039;
    0x655b59c3; 0x8f0ccc92; 0xffeff47d; 0x85845dd1;
    0x6fa87e4f; 0xfe2ce6e0; 0xa3014314; 0x4e0811a1;
    0xf7537e82; 0xbd3af235; 0x2ad7d2bb; 0xeb86d391 ].

Record state := { sa : Z; sb : Z; sc : Z; sd : Z }.

Definition init : state :=
  {| sa := 0x67452301; sb := 0xefcdab89; sc := 0x98badcfe; sd := 0x10325476 |}.

(** One of the 64 operations on the words [M] of a block. *)
Definition step (M : list Z) (st : state) (i : nat) : state :=
  let '(a, b, c, d) := (sa st, sb st, sc st, sd st) in
  let '(f, g) :=
    if Nat.ltb i 16 then
      (Z.lor (Z.land b c) (Z.land (not32 b) d), i)
    else if Nat.ltb i 32 then
      (Z.lor (Z.land d b) (Z.land (not32 d) c), Nat.modulo (5 * i + 1) 16)
    else if Nat.ltb i 48 then
      (Z.lxor b (Z.lxor c d), Nat.modulo (3 * i + 5) 16)
    else
      (Z.lxor c (Z.lor b (not32 d)), Nat.modulo (7 * i) 16) in
  let f := add32 (add32 (add32 f a) (nth i sines 0)) (nth g M 0) in
  {| sa := d; sb := add32 b (rotl32 f (nth i shifts 0)); sc := b; sd := c |}.

(** Little-endian 32-bit words of a block. *)
Fixpoint words (n : nat) (bytes : list Z) : list Z :=
  match n, bytes with
  | S n', b0 :: b1 :: b2 :: b3 :: rest =>
      (b0 + b1 * 2 ^ 8 + b2 * 2 ^ 16 + b3 * 2 ^ 24) :: words n' rest
  | _, _ => []
  end.

Definition compress (h : state) (block : list Z) : state :=
  let r := fold_left (step (words 16 block)) (seq 0 64) h in
  {| sa := add32 (sa h) (sa r); sb := add32 (sb h) (sb r);
     sc := add32 (sc h) (sc r); sd := add32 (sd h) (sd r) |}.

Fixpoint blocks (n : nat) (bytes : list Z) (h : state) : state :=
  match n with
  | O => h
  | S n' => blocks n' (skipn 64 bytes) (compress h (firstn 64 bytes))
  end.

(** [n] little-endian bytes of [x]. *)
Fixpoint le_bytes (n : nat) (x : Z) : list Z :=
  match n with
  | O => []
  | S n' => (x mod 256) :: le_bytes n' (x / 256)
  end.

Definition pad (msg : list Z) : list Z :=
  let len := Z.of_nat (length msg) in
  msg ++ [0x80] ++ repeat 0 (Z.to_nat ((55 - len) mod 64))
      ++ le_bytes 8 ((8 * len) mod 2 ^ 64).

Definition digest (msg : list Z) : list Z :=
  let p := pad msg in
  let h := blocks (Nat.div (length p) 64) p init in
  le_bytes 4 (sa h) ++ le_bytes 4 (sb h) ++ le_bytes 4 (sc h) ++ le_bytes 4 (sd h).

Definition hex_digit (x : Z) : char :=
  if x <? 10 then Z.to_N (48 + x) else Z.to_N (87 + x).

Definition hexdigest (msg : list Z) : str :=
  flat_map (fun b => [hex_digit (b / 16); hex_digit (b mod 16)]) (digest msg).

End MD5.

(** The UTF-8 bytes of one code point and [s.encode()].  Texts are taken
    to be sequences of Unicode scalar values. *)
Definition utf8_char (c : char) : list Z :=
  let z := Z.of_N c in
  if z <? 0x80 then [z]
  else if z <? 0x800 then
    [Z.lor 0xc0 (Z.shiftr z 6); Z.lor 0x80 (Z.land z 0x3f)]
  else if z <? 0x10000 then
    [Z.lor 0xe0 (Z.shiftr z 12); Z.lor 0x80 (Z.land (Z.shiftr z 6) 0x3f);
     Z.lor 0x80 (Z.land z 0x3f)]
  else
    [Z.lor 0xf0 (Z.shiftr z 18); Z.lor 0x80 (Z.land (Z.shiftr z 12) 0x3f);
     Z.lor 0x80 (Z.land (Z.shiftr z 6) 0x3f); Z.lor 0x80 (Z.land z 0x3f)].

Definition encode (s : str) : list Z := flat_map utf8_char s.

(* ===================================================================== *)
(** ** The process and the remote side *)
(* ===================================================================== *)

(** An HTTP request as handed to [requests]. *)
Record request := {
  rq_method : str;
  rq_url : str;
  rq_headers : list (str * str);
  rq_params : list (str * str);
  rq_body : json;          (* the payload: [data=json.dumps(p)] or [json=p] *)
  rq_timeout : Z
}.

(** A [requests.Response]: [json_value] is what [json()] returns, [None]
    when the body is not JSON ([json()] raises [ValueError]); [content]
    is the body in bytes. *)
Record http_response := {
  status_code : Z;
  reason : str;
  resp_headers : list (str * str);
  text : str;
  json_value : option json;
  content : list Z
}.

(** What comes back: [requests.RequestException] with its text, or a
    response. *)
Inductive http_result :=
| NetworkError (msg : str)
| Response (resp : http_response).

Record reply := {
  elapsed_ms : Z;          (* time the exchange takes *)
  result : http_result
}.

(** [_metrics] *)
Record metrics := {
  attempts : Z;
  successful_calls : Z;
  errors_total : Z;
  bytes_received : Z;
  last_latency_ms : Z
}.

(** A value of [_response_cache]; [timestamp] is in milliseconds. *)
Record cache_entry := {
  response : json;
  timestamp : Z
}.

(** The state a call runs in.  The clock [w_now] counts milliseconds;
    it advances during an HTTP exchange and during [time.sleep].  The
    remote side answers the [n]-th request of the process ([n] counted
    from 0) by [w_upstream n request]. *)
Record world := {
  w_env : gmap str str;                         (* [os.environ] *)
  w_response_cache : gmap str cache_entry;      (* [_response_cache] *)
  w_metrics : metrics;                          (* [_metrics] *)
  w_now : Z;                                    (* [time.time()] *)
  w_upstream : nat -> request -> reply;
  w_requests : list request;                    (* sent so far, oldest first *)
  w_model_list_cache : option (Z * list json)   (* [generate_gemini_response._model_list_cache] *)
}.

Definition set_cache (c : gmap str cache_entry) (w : world) : world :=
  {| w_env := w_env w; w_response_cache := c; w_metrics := w_metrics w;
     w_now := w_now w; w_upstream := w_upstream w; w_requests := w_requests w;
     w_model_list_cache := w_model_list_cache w |}.

Definition set_metrics (m : metrics) (w : world) : world :=
  {| w_env := w_env w; w_response_cache := w_response_cache w; w_metrics := m;
     w_now := w_now w; w_upstream := w_upstream w; w_requests := w_requests w;
     w_model_list_cache := w_model_list_cache w |}.

Definition set_now (t : Z) (w : world) : world :=
  {| w_env := w_env w; w_response_cache := w_response_cache w;
     w_metrics := w_metrics w;
     w_now := t; w_upstream := w_upstream w; w_requests := w_requests w;
     w_model_list_cache := w_model_list_cache w |}.

Definition set_requests (l : list request) (w : world) : world :=
  {| w_env := w_env w; w_response_cache := w_response_cache w;
     w_metrics := w_metrics w;
     w_now := w_now w; w_upstream := w_upstream w; w_requests := l;
     w_model_list_cache := w_model_list_cache w |}.

Definition set_model_list_cache (c : option (Z * list json)) (w : world) : world :=
  {| w_env := w_env w; w_response_cache := w_response_cache w;
     w_metrics := w_metrics w;
     w_now := w_now w; w_upstream := w_upstream w; w_requests := w_requests w;
     w_model_list_cache := c |}.

(** [os.getenv(name)] *)
Definition getenv (w : world) (name : str) : option str := w_env w !! name.

(** [os.getenv(name, fallback)] *)
Definition getenv_or (w : world) (name fallback : str) : str :=
  match w_env w !! name with Some v => v | None => fallback end.

(** [time.sleep(seconds)] *)
Definition sleep (seconds : Z) (w : world) : world :=
  set_now (w_now w + 1000 * seconds) w.

(** [requests.post(...)] / [requests.get(...)]: the request is sent, the
    remote side answers, time passes. *)
Definition send (rq : request) (w : world) : http_result * world :=
  let r := w_upstream w (length (w_requests w)) rq in
  (result r, set_requests (w_requests w ++ [rq]) (set_now (w_now w + elapsed_ms r) w)).

(* ===================================================================== *)
(** ** Key rotation *)
(* ===================================================================== *)

Definition OPENROUTER_URL : str := u "https://openrouter.ai/api/v1/chat/completions".

Definition bump_attempts (w : world) : world :=
  let m := w_metrics w in
  set_metrics {| attempts := attempts m + 1; successful_calls := successful_calls m;
                 errors_total := errors_total m; bytes_received := bytes_received m;
                 last_latency_ms := last_latency_ms m |} w.

Definition record_latency (latency_ms : Z) (w : world) : world :=
  let m := w_metrics w in
  set_metrics {| attempts := attempts m; successful_calls := successful_calls m;
                 errors_total := errors_total m; bytes_received := bytes_received m;
                 last_latency_ms := latency_ms |} w.

Definition record_success (content_length : Z) (w : world) : world :=
  let m := w_metrics w in
  set_metrics {| attempts := attempts m; successful_calls := successful_calls m + 1;
                 errors_total := errors_total m;
                 bytes_received := bytes_received m + content_length;
                 last_latency_ms := last_latency_ms m |} w.

Definition bump_errors (w : world) : world :=
  let m := w_metrics w in
  set_metrics {| attempts := attempts m; successful_calls := successful_calls m;
                 errors_total := errors_total m + 1; bytes_received := bytes_received m;
                 last_latency_ms := last_latency_ms m |} w.

(** The header dictionary of one attempt. *)
Definition base_headers (w : world) : list (str * str) :=
  [(u "Content-Type", u "application/json")]
  ++ (if opt_truthy (getenv w (u "INTELLIHUB_REFERER"))
      then [(u "HTTP-Referer", or_empty (getenv w (u "INTELLIHUB_REFERER")))] else [])
  ++ (if opt_truthy (getenv w (u "INTELLIHUB_TITLE"))
      then [(u "X-Title", or_empty (getenv w (u "INTELLIHUB_TITLE")))] else []).

Definition openrouter_request (headers : list (str * str)) (key : str)
    (payload : list (str * json)) : request :=
  {| rq_method := u "POST"; rq_url := OPENROUTER_URL;
     rq_headers := headers ++ [(u "Authorization", u "Bearer " ++ key)];
     rq_params := []; rq_body := JDict payload; rq_timeout := 20 |}.

(** The locals [last_error] and [attempts_summary]. *)
Record rotation := {
  last_error : option str;
  attempts_summary : list str
}.

(** [f"{x}"] for an optional string. *)
Definition str_of_opt (o : option str) : str :=
  match o with Some s => s | None => u "None" end.

(** The line recorded for a network failure. *)
Definition network_error_line (key_index attempt : nat) (e : str) : str :=
  u "Network error (key " ++ str_of_nat (key_index + 1) ++ u ", attempt "
    ++ str_of_nat attempt ++ u "): " ++ e.

(** The line recorded for a response. *)
Definition status_line (key_index attempt : nat) (status : Z) (text : str) : str :=
  let snippet := replace [NL] [SP] (take_prefix 180 text) in
  u "key " ++ str_of_nat (key_index + 1) ++ u " attempt " ++ str_of_nat attempt
    ++ u " -> " ++ str_of_Z status ++ u " : " ++ snippet.

(** The inner loop, [for attempt in range(1, max_retries_per_key + 1)],
    from [attempt] on with [remaining] iterations left.  The result is
    [Some] when the function returns or raises from inside the loop and
    [None] when the loop ends ([break], or the range is used up). *)
Fixpoint try_key (headers : list (str * str)) (payload : list (str * json))
    (key_index : nat) (key : str) (backoff_seconds : Z)
    (remaining attempt : nat) (st : rotation) (w : world)
  : option (outcome json) * rotation * world :=
  match remaining with
  | O => (None, st, w)
  | S remaining' =>
      let w := bump_attempts w in
      let start := w_now w in
      let '(r, w) := send (openrouter_request headers key payload) w in
      match r with
      | NetworkError e =>
          let line := network_error_line key_index attempt e in
          let st := {| last_error := Some line;
                       attempts_summary := attempts_summary st ++ [line] |} in
          let w := sleep backoff_seconds w in
          try_key headers payload key_index key backoff_seconds
                  remaining' (S attempt) st w
      | Response resp =>
          let latency_ms := w_now w - start in
          let w := record_latency latency_ms w in
          let status := status_code resp in
          let st := {| last_error := last_error st;
                       attempts_summary :=
                         attempts_summary st
                           ++ [status_line key_index attempt status (text resp)] |} in
          if status =? 200 then
            match json_value resp with
            | Some data =>
                (Some (Return data), st,
                 record_success (Z.of_nat (length (content resp))) w)
            | None =>
                (Some (Raise (RuntimeError (u "Response not valid JSON (200)"))), st, w)
            end
          else if (status =? 401) || (status =? 403) then
            (None,
             {| last_error := Some (u "Auth error " ++ str_of_Z status ++ u " with key "
                                      ++ str_of_nat (key_index + 1));
                attempts_summary := attempts_summary st |}, w)
          else if status =? 429 then
            let backoff_time := backoff_seconds * 2 ^ (Z.of_nat attempt - 1) in
            let w := sleep backoff_time w in
            try_key headers payload key_index key backoff_seconds
                    remaining' (S attempt) st w
          else
            (None,
             {| last_error := Some (u "HTTP " ++ str_of_Z status ++ u " with key "
                                      ++ str_of_nat (key_index + 1));
                attempts_summary := attempts_summary st |}, w)
      end
  end.

(** The outer loop, [for key_index, key in enumerate(api_keys)]. *)
Fixpoint rotate_keys (headers : list (str * str)) (payload : list (str * json))
    (max_retries_per_key : nat) (backoff_seconds : Z)
    (key_index : nat) (api_keys : list str) (st : rotation) (w : world)
  : option (outcome json) * rotation * world :=
  match api_keys with
  | [] => (None, st, w)
  | key :: rest =>
      match try_key headers payload key_index key backoff_seconds
                    max_retries_per_key 1 st w with
      | (Some r, st, w) => (Some r, st, w)
      | (None, st, w) =>
          rotate_keys headers payload max_retries_per_key backoff_seconds
                      (S key_index) rest st w
      end
  end.

(** [all(" 429 " in a or "429" in a for a in attempts_summary)] *)
Definition all_429 (attempts_summary : list str) : bool :=
  forallb (fun a => str_in (u " 429 ") a || str_in (u "429") a) attempts_summary.

Definition request_with_rotation (payload : list (str * json)) (api_keys : list str)
    (max_retries_per_key : nat) (backoff_seconds : Z) (w : world)
  : outcome json * world :=
  match api_keys with
  | [] => (Raise (RuntimeError
                    (u "No API keys found. Set OPENROUTER_API_KEYS or OPENROUTER_API_KEY_1.")),
           w)
  | _ =>
      match rotate_keys (base_headers w) payload max_retries_per_key backoff_seconds
                        0 api_keys
                        {| last_error := None; attempts_summary := [] |} w with
      | (Some r, _, w) => (r, w)
      | (None, st, w) =>
          let diagnostic := join (u " | ") (attempts_summary st) in
          let w := bump_errors w in
          if truthy diagnostic && all_429 (attempts_summary st) then
            (Raise (RateLimitExhaustedError
                      (u "Rate limited across all keys. Attempts: " ++ diagnostic)), w)
          else
            (Raise (RuntimeError
                      (u "All keys failed. Last error: " ++ str_of_opt (last_error st)
                         ++ u ". Attempts: " ++ diagnostic)), w)
      end
  end.

(** [get_metrics()] *)
Definition get_metrics (w : world) : metrics := w_metrics w.

(* ===================================================================== *)
(** ** Model fallback *)
(* ===================================================================== *)

(** The loop [for model in models] of [try_models_with_fallback];
    [n_models] is [len(models)] of the whole list.  [None] when the loop
    runs to its end. *)
Fixpoint fallback_loop (n_models : nat) (models : list str)
    (payload : list (str * json)) (api_keys : list str)
    (last_err : option str) (rate_limit_only : bool) (w : world)
  : option (outcome json) * option str * bool * world :=
  match models with
  | [] => (None, last_err, rate_limit_only, w)
  | model :: rest =>
      let payload_copy := dict_set payload (u "model") (JStr model) in
      match request_with_rotation payload_copy api_keys 1 5 w with
      | (Return data, w) => (Some (Return data), last_err, rate_limit_only, w)
      | (Raise e, w) =>
          if is_RuntimeError e then
            let err_text := exn_str e in
            let last_err := Some err_text in
            let rate_limit_only :=
              if negb (str_in (u "429") err_text) then false else rate_limit_only in
            if str_in (u "429") err_text && Nat.ltb 1 n_models then
              fallback_loop n_models rest payload api_keys last_err rate_limit_only w
            else
              (Some (Raise e), last_err, rate_limit_only, w)
          else (Some (Raise e), last_err, rate_limit_only, w)
      end
  end.

Definition try_models_with_fallback (models : list str)
    (payload : list (str * json)) (api_keys : list str) (w : world)
  : outcome json * world :=
  match fallback_loop (length models) models payload api_keys None true w with
  | (Some r, _, _, w) => (r, w)
  | (None, last_err, rate_limit_only, w) =>
      if rate_limit_only && opt_truthy last_err && str_in (u "429") (str_of_opt last_err)
      then (Raise (RateLimitExhaustedError
                     (u "All models/keys hit external 429 rate limits.")), w)
      else (Raise (RuntimeError
                     (u "All fallback models failed. Last error: " ++ str_of_opt last_err)), w)
  end.

(* ===================================================================== *)
(** ** Model registry and credentials *)
(* ===================================================================== *)

Definition DEFAULT_FALLBACK_MODEL : str := u "qwen/qwen-2.5-72b-instruct:free".

(** [MODEL_PREFERENCES], built from the environment when the module is
    loaded. *)
Definition MODEL_PREFERENCES (w : world) : list (str * list str) :=
  [ (u "code",
      [ getenv_or w (u "INTELLIHUB_MODEL_CODE") (u "google/gemini-1.5-flash-latest");
        u "qwen/qwen-2.5-coder-32b-instruct:free";
        u "qwen/qwen-2.5-72b-instruct:free" ]);
    (u "image_reason",
      [ getenv_or w (u "INTELLIHUB_MODEL_IMAGE") (u "google/gemini-1.5-pro-latest");
        u "x-ai/grok-4-fast:free";
        u "qwen/qwen-2.5-72b-instruct:free" ]);
    (u "general",
      [ getenv_or w (u "INTELLIHUB_MODEL_GENERAL") (u "google/gemini-1.5-flash-latest");
        u "qwen/qwen-2.5-72b-instruct:free";
        u "qwen/qwen-2.5-coder-32b-instruct:free" ]);
    (u "research",
      [ getenv_or w (u "INTELLIHUB_MODEL_RESEARCH") (u "google/gemini-1.5-pro-latest");
        u "qwen/qwen-2.5-72b-instruct:free";
        u "qwen/qwen-2.5-coder-32b-instruct:free" ]) ].

Fixpoint preferences_get (prefs : list (str * list str)) (task_type : str)
  : option (list str) :=
  match prefs with
  | [] => None
  | (k, v) :: rest => if str_eqb k task_type then Some v else preferences_get rest task_type
  end.

(** [MODEL_PREFERENCES.get(task_type) or fallback] *)
Definition models_or (w : world) (task_type : str) (fallback : list str) : list str :=
  match preferences_get (MODEL_PREFERENCES w) task_type with
  | Some (m :: ms) => m :: ms
  | _ => fallback
  end.

Definition pick_model (w : world) (task_type : str) : str :=
  match models_or w task_type [] with
  | m :: _ => m
  | [] => DEFAULT_FALLBACK_MODEL
  end.

(** [[k.strip() for k in csv.split(',') if k.strip()]] *)
Definition csv_keys (csv : str) : list str :=
  List.filter truthy (List.map strip (split_on (ch ","%char) csv)).

(** The loop over [OPENROUTER_API_KEY_1], [_2], ...: it stops at the
    first index that is unset or empty.  [fuel] bounds the number of
    iterations; the environment is finite, so one more than its size is
    never used up. *)
Fixpoint indexed_keys (w : world) (fuel idx : nat) : list str :=
  match fuel with
  | O => []
  | S fuel' =>
      match getenv w (u "OPENROUTER_API_KEY_" ++ str_of_nat idx) with
      | Some (c :: v) => strip (c :: v) :: indexed_keys w fuel' (S idx)
      | _ => []
      end
  end.

Definition legacy_keys (w : world) : list str :=
  flat_map (fun legacy =>
              match getenv w legacy with
              | Some (c :: v) => [strip (c :: v)]
              | _ => []
              end)
           [u "deepseek_api_key"; u "grok_api_key"].

(** [k not in seen] and the de-duplication loop. *)
Definition seen_before (seen : list str) (k : str) : bool :=
  existsb (str_eqb k) seen.

Fixpoint unique_keys (keys seen : list str) : list str :=
  match keys with
  | [] => []
  | k :: rest =>
      if truthy k && negb (seen_before seen k)
      then k :: unique_keys rest (k :: seen)
      else unique_keys rest seen
  end.

Definition collect_api_keys (w : world) : list str :=
  let keys :=
    (if opt_truthy (getenv w (u "OPENROUTER_API_KEYS"))
     then csv_keys (or_empty (getenv w (u "OPENROUTER_API_KEYS"))) else [])
    ++ indexed_keys w (S (size (w_env w))) 1
    ++ legacy_keys w in
  unique_keys keys [].

Definition build_messages (prompt : str) (image_url : option str) : json :=
  if opt_truthy image_url then
    JList [ JDict [ (u "role", JStr (u "user"));
                    (u "content",
                      JList [ JDict [ (u "type", JStr (u "text"));
                                      (u "text", JStr prompt) ];
                              JDict [ (u "type", JStr (u "image_url"));
                                      (u "image_url",
                                        JDict [ (u "url", JStr (or_empty image_url)) ]) ] ]) ] ]
  else
    JList [ JDict [ (u "role", JStr (u "user")); (u "content", JStr prompt) ] ].

(* ===================================================================== *)
(** ** Response cache *)
(* ===================================================================== *)

(** [CACHE_TTL], five minutes, in milliseconds. *)
Definition CACHE_TTL : Z := 300 * 1000.

Definition generate_cache_key (prompt : str) (image_url : option str)
    (task_type : str) : str :=
  let cache_input := prompt ++ u "|" ++ or_empty image_url ++ u "|" ++ task_type in
  MD5.hexdigest (encode cache_input).

Definition get_cached_response (cache_key : str) (w : world) : option json * world :=
  match w_response_cache w !! cache_key with
  | Some cached =>
      if w_now w - timestamp cached <? CACHE_TTL
      then (Some (response cached), w)
      else (None, set_cache (delete cache_key (w_response_cache w)) w)
  | None => (None, w)
  end.

Definition cache_response (cache_key : str) (resp : json) (w : world) : world :=
  set_cache (<[cache_key := {| response := resp; timestamp := w_now w |}]>
               (w_response_cache w)) w.

(* ===================================================================== *)
(** ** The entry point *)
(* ===================================================================== *)

(** The text returned when every provider is rate limited. *)
Definition guidance : str :=
  u "The service hit external rate limits on all available providers." ++ [NL; NL]
  ++ u "What you can do now:" ++ [NL]
  ++ [BULLET] ++ u " Add credits to OpenRouter (unlocks higher daily quota)." ++ [NL]
  ++ [BULLET] ++ u " Add additional API keys (OPENROUTER_API_KEYS) for rotation." ++ [NL]
  ++ [BULLET] ++ u " Retry in a few minutes (limits reset periodically)." ++ [NL]
  ++ [BULLET] ++ u " Upgrade to paid / non-free models and include them in MODEL_PREFERENCES."
  ++ [NL]
  ++ [BULLET] ++ u " Implement per-user throttling to reduce burst traffic.".

(** The normalized response dictionary. *)
Definition normalized (model : json) (task_type : str) (assistant_text : str)
    (raw : json) : json :=
  JDict [ (u "model", model); (u "task_type", JStr task_type);
          (u "assistant_text", JStr assistant_text); (u "raw", raw) ].

Definition rate_limited_response (model task_type : str) : json :=
  normalized (JStr model) task_type guidance
             (JDict [ (u "error", JStr (u "rate_limited")) ]).

(** [min(temperature, 0.5)] *)
Definition capped_temperature (temperature : Q) : Q :=
  if Qle_bool temperature (1 # 2) then temperature else (1 # 2).

Section Router.

(** The other provider clients, imported inside [generate_response]:
    [perplexity.generate_research_response],
    [local_llm.generate_local_response] and
    [gemini.generate_gemini_response], each called with [prompt],
    [image_url] and [temperature]. *)
Variable generate_research_response :
  str -> option str -> Q -> world -> outcome json * world.
Variable generate_local_response :
  str -> option str -> Q -> world -> outcome json * world.
Variable generate_gemini_response :
  str -> option str -> Q -> world -> outcome json * world.

(** The end of [generate_response]: the text is extracted from [raw],
    the normalized response is stored and returned. *)
Definition finish (task_type cache_key : str) (raw model_used : json) (w : world)
  : outcome json * world :=
  let assistant_text := extract_assistant_text raw in
  let result := normalized model_used task_type assistant_text raw in
  (Return result, cache_response cache_key result w).

(** The handler [except RuntimeError as e] of [generate_response]. *)
Definition last_resort (e : exn) (prompt : str) (image_url : option str)
    (temperature : Q) (task_type cache_key : str) (payload : list (str * json))
    (api_keys : list str) (w : world) : outcome json * world :=
  let payload := dict_set payload (u "model") (JStr DEFAULT_FALLBACK_MODEL) in
  match request_with_rotation payload api_keys 1 8 w with
  | (Return raw, w) => finish task_type cache_key raw (JStr DEFAULT_FALLBACK_MODEL) w
  | (Raise final_openrouter_error, w) =>
      if json_is_str (option_map JStr (getenv w (u "INTELLIHUB_DISABLE_GEMINI_FALLBACK")))
                     (u "1")
      then (Raise final_openrouter_error, w)
      else
        match generate_local_response prompt image_url temperature w with
        | (Return local_result, w) =>
            (Return local_result, cache_response cache_key local_result w)
        | (Raise local_err, w) =>
            if opt_truthy (getenv w (u "GEMINI_API_KEY")) then
              match generate_gemini_response prompt image_url temperature w with
              | (Return gemini_result, w) =>
                  (Return gemini_result, cache_response cache_key gemini_result w)
              | (Raise gemini_err, w) =>
                  (Raise (RuntimeError
                            (u "OpenRouter failed (" ++ exn_str e
                               ++ u "); Gemini fallback failed ("
                               ++ exn_str gemini_err ++ u ")")), w)
              end
            else (Raise final_openrouter_error, w)
        end
  end.

(** [generate_response] from the line [models = ...] on. *)
Definition dispatch (prompt : str) (image_url : option str) (temperature : Q)
    (task_type cache_key : str) (w : world) : outcome json * world :=
  let models := models_or w task_type [DEFAULT_FALLBACK_MODEL] in
  let model0 := match models with m :: _ => m | [] => [] end in
  let api_keys := collect_api_keys w in
  let messages := build_messages prompt image_url in
  let payload := [ (u "model", JStr model0); (u "messages", messages);
                   (u "temperature", JFloat temperature) ] in
  if negb (match api_keys with [] => false | _ => true end)
     && opt_truthy (getenv w (u "GEMINI_API_KEY"))
  then
    match generate_gemini_response prompt image_url temperature w with
    | (Return direct, w) => (Return direct, cache_response cache_key direct w)
    | (Raise gemini_direct_error, w) =>
        (Raise (RuntimeError (u "No OpenRouter keys and Gemini direct failed: "
                                ++ exn_str gemini_direct_error)), w)
    end
  else
    match try_models_with_fallback models payload api_keys w with
    | (Return raw, w) =>
        match py_get raw (u "model") with
        | Return found =>
            finish task_type cache_key raw
                   (match found with Some m => m | None => JStr model0 end) w
        | Raise err => (Raise err, w)
        end
    | (Raise e, w) =>
        if is_RateLimitExhaustedError e then
          (Return (rate_limited_response model0 task_type), w)
        else if is_RuntimeError e then
          last_resort e prompt image_url temperature task_type cache_key payload api_keys w
        else (Raise e, w)
    end.

Definition generate_response (prompt : str) (image_url : option str)
    (temperature : Q) (w : world) : outcome json * world :=
  let task_type := classify_task prompt image_url in
  let cache_key := generate_cache_key prompt image_url task_type in
  let '(cached, w) := get_cached_response cache_key w in
  if match cached with Some c => json_truthy c | None => false end
  then (Return (match cached with Some c => c | None => JNull end), w)
  else
    if str_eqb task_type (u "research")
       && opt_truthy (getenv w (u "PERPLEXITY_API_KEY"))
    then
      match generate_research_response prompt image_url
              (capped_temperature temperature) w with
      | (Return research_result, w) =>
          (Return research_result, cache_response cache_key research_result w)
      | (Raise _, w) =>
          dispatch prompt image_url temperature task_type cache_key w
      end
    else dispatch prompt image_url temperature task_type cache_key w.

End Router.

(* ===================================================================== *)
(** ** The direct Gemini client *)
(* ===================================================================== *)

(** [gemini.py]. *)
Module Gemini.

(** [iter(x)]: the items a [for] loop or a comprehension visits. *)
Definition py_iter (x : json) : outcome (list json) :=
  match x with
  | JList l => Return l
  | JStr s => Return (List.map (fun c => JStr [c]) s)
  | JDict d => Return (List.map (fun kv => JStr (fst kv)) d)
  | _ => Raise (TypeError (u "'" ++ type_name x ++ u "' object is not iterable"))
  end.

(** [x.get(key, default)] *)
Definition py_get_or (x : json) (key : str) (default : json) : outcome json :=
  o <- py_get x key ;;
  Return (match o with Some v => v | None => default end).

(** [[p["text"] for p in parts if isinstance(p, dict) and p.get("text")]] *)
Fixpoint gemini_text_parts (parts : list json) : list json :=
  match parts with
  | [] => []
  | JDict d :: rest =>
      match dict_get d (u "text") with
      | Some t => if json_truthy t then t :: gemini_text_parts rest
                  else gemini_text_parts rest
      | None => gemini_text_parts rest
      end
  | _ :: rest => gemini_text_parts rest
  end.

Definition extract_gemini_text_body (data : json) : outcome str :=
  candidates <- py_get_or data (u "candidates") (JList []) ;;
  if negb (json_truthy candidates) then Return (u "(no candidates in Gemini response)")
  else
    first <- py_first candidates ;;
    content <- py_get_or first (u "content") (JDict []) ;;
    parts <- py_get_or content (u "parts") (JList []) ;;
    if negb (json_truthy parts) then Return (u "(no parts in Gemini response)")
    else
      items <- py_iter parts ;;
      match gemini_text_parts items with
      | [] => Return (u "(no text parts in Gemini response)")
      | text_parts => strs <- join_items 0 text_parts ;; Return (join [NL] strs)
      end.

Definition extract_gemini_text (data : json) : str :=
  match extract_gemini_text_body data with
  | Return s => s
  | Raise e => u "Failed to parse Gemini response: " ++ exn_str e
  end.

Definition alternates_map : list (str * list str) :=
  [ (u "gemini-1.5-flash",
      [ u "gemini-2.5-flash"; u "gemini-flash-latest"; u "gemini-2.0-flash";
        u "gemini-2.0-flash-001" ]);
    (u "gemini-1.5-pro",
      [ u "gemini-2.5-pro"; u "gemini-pro-latest"; u "gemini-2.0-pro-exp" ]);
    (u "gemini-2.5-flash",
      [ u "gemini-flash-latest"; u "gemini-2.5-flash-lite"; u "gemini-2.0-flash" ]);
    (u "gemini-2.5-pro",
      [ u "gemini-pro-latest"; u "gemini-2.5-flash" ]) ].

(** The initial [candidate_models]. *)
Definition initial_candidates (model : str) : list str :=
  model ::
  match preferences_get alternates_map model with
  | Some alts => List.filter (fun m => negb (str_eqb m model)) alts
  | None => []
  end.

Definition generate_request (candidate api_key : str) (payload : json) : request :=
  {| rq_method := u "POST";
     rq_url := u "https://generativelanguage.googleapis.com/v1beta/models/"
                 ++ candidate ++ u ":generateContent";
     rq_headers := [(u "Content-Type", u "application/json")];
     rq_params := [(u "key", api_key)];
     rq_body := payload; rq_timeout := 30 |}.

Definition listing_request (api_key : str) : request :=
  {| rq_method := u "GET";
     rq_url := u "https://generativelanguage.googleapis.com/v1beta/models";
     rq_headers := []; rq_params := [(u "key", api_key)];
     rq_body := JNull; rq_timeout := 15 |}.

(** [[m.get("name", "") for m in listing.get("models", []) if m.get("name")]] *)
Fixpoint listed_names (items : list json) : outcome (list json) :=
  match items with
  | [] => Return []
  | m :: rest =>
      name <- py_get m (u "name") ;;
      names <- listed_names rest ;;
      Return (match name with
              | Some n => if json_truthy n then n :: names else names
              | None => names
              end)
  end.

Definition model_names (listing : json) : outcome (list json) :=
  models <- py_get_or listing (u "models") (JList []) ;;
  items <- py_iter models ;;
  listed_names items.

(** [preferred in m] *)
Definition py_contains (preferred : str) (m : json) : outcome bool :=
  match m with
  | JStr s => Return (str_in preferred s)
  | JList l => Return (existsb (fun x => json_is_str (Some x) preferred) l)
  | JDict d => Return (match dict_get d preferred with Some _ => true | None => false end)
  | _ => Raise (TypeError (u "argument of type '" ++ type_name m ++ u "' is not iterable"))
  end.

(** [next((m for m in model_list if preferred in m), None)] *)
Fixpoint first_preferred (preferred : str) (model_list : list json)
  : outcome (option json) :=
  match model_list with
  | [] => Return None
  | m :: rest =>
      b <- py_contains preferred m ;;
      if b then Return (Some m) else first_preferred preferred rest
  end.

(** [m.split('/')[-1]] *)
Definition last_segment (m : json) : outcome str :=
  match m with
  | JStr s => Return (List.last (split_on (ch "/"%char) s) [])
  | _ => Raise (AttributeError
                  (u "'" ++ type_name m ++ u "' object has no attribute 'split'"))
  end.

(** The locals of the loop. *)
Record locals := {
  candidate_models : list str;
  attempted : list str;
  last_err : option str;
  cache : option (Z * list json)
}.

(** The discovery step taken on a 404: the model list (fetched, or from
    the cache when it is at most five minutes old), then the pick. *)
Definition discover (api_key : str) (st : locals) (w : world)
  : outcome locals * world :=
  let now := w_now w in
  let fresh :=
    match cache st with
    | Some (t, _) => now - t >? 300 * 1000
    | None => true
    end in
  let '(model_list, cache', w) :=
    if fresh then
      match send (listing_request api_key) w with
      | (Response resp, w) =>
          if status_code resp =? 200 then
            match json_value resp with
            | Some listing =>
                match model_names listing with
                | Return model_list =>
                    (model_list, Some (now, model_list),
                     set_model_list_cache (Some (now, model_list)) w)
                | Raise _ => ([], cache st, w)
                end
            | None => ([], cache st, w)
            end
          else ([], cache st, w)
      | (NetworkError _, w) => ([], cache st, w)
      end
    else (match cache st with Some (_, l) => l | None => [] end, cache st, w) in
  let preferred := getenv_or w (u "GEMINI_PREFERRED_FAMILY") (u "gemini-2.5") in
  match first_preferred preferred model_list with
  | Raise e => (Raise e, w)
  | Return pick =>
      let keep models :=
        (Return {| candidate_models := models; attempted := attempted st;
                   last_err := last_err st; cache := cache' |}, w) in
      match pick with
      | Some dynamic_pick_full =>
          if json_truthy dynamic_pick_full then
            match last_segment dynamic_pick_full with
            | Return dynamic_short =>
                if negb (seen_before (candidate_models st) dynamic_short)
                then keep (candidate_models st ++ [dynamic_short])
                else keep (candidate_models st)
            | Raise e => (Raise e, w)
            end
          else keep (candidate_models st)
      | None => keep (candidate_models st)
      end
  end.

(** The loop [for candidate in list(candidate_models)] over the snapshot
    [snapshot].  [Some] when the function returns or raises from inside
    the loop, [None] when the loop ends. *)
Fixpoint candidate_loop (api_key task_type : str) (payload : json)
    (snapshot : list str) (st : locals) (w : world)
  : option (outcome json) * locals * world :=
  match snapshot with
  | [] => (None, st, w)
  | candidate :: rest =>
      match send (generate_request candidate api_key payload) w with
      | (NetworkError e, w) =>
          candidate_loop api_key task_type payload rest
            {| candidate_models := candidate_models st; attempted := attempted st;
               last_err := Some (u "Network error: " ++ e); cache := cache st |} w
      | (Response resp, w) =>
          let status := status_code resp in
          if status =? 200 then
            match json_value resp with
            | None =>
                (Some (Raise (GeminiError (u "Gemini returned non-JSON 200 response"))),
                 st, w)
            | Some data =>
                let assistant_text := extract_gemini_text data in
                let cleaned_text := clean_markdown_formatting assistant_text in
                (Some (Return (normalized (JStr (u "gemini/" ++ candidate)) task_type
                                          cleaned_text data)), st, w)
            end
          else
            let snippet := replace [NL] [SP] (take_prefix 200 (text resp)) in
            let err := if truthy snippet
                       then u "HTTP " ++ str_of_Z status ++ u " " ++ snippet
                       else u "HTTP " ++ str_of_Z status in
            let st := {| candidate_models := candidate_models st;
                         attempted := attempted st;
                         last_err := Some err; cache := cache st |} in
            if status =? 404 then
              let st := {| candidate_models := candidate_models st;
                           attempted := attempted st ++ [candidate];
                           last_err := last_err st; cache := cache st |} in
              match discover api_key st w with
              | (Return st, w) => candidate_loop api_key task_type payload rest st w
              | (Raise e, w) => (Some (Raise e), st, w)
              end
            else (None, st, w)
      end
  end.

(** [repr(s)] for a string: quotes chosen as Python does, backslash,
    the quote and the common control characters escaped. *)
Definition repr_str (s : str) : str :=
  let sq := ch "'"%char in
  let dq := 34%N in
  let q := if existsb (N.eqb sq) s && negb (existsb (N.eqb dq) s) then dq else sq in
  [q] ++ flat_map (fun c =>
                     if N.eqb c 92 then [92; 92]
                     else if N.eqb c q then [92; c]
                     else if N.eqb c 10 then [92; ch "n"%char]
                     else if N.eqb c 13 then [92; ch "r"%char]
                     else if N.eqb c 9 then [92; ch "t"%char]
                     else [c])%N s
      ++ [q].

(** [repr(l)] for a list of strings. *)
Definition repr_list (l : list str) : str :=
  u "[" ++ join (u ", ") (List.map repr_str l) ++ u "]".

Definition failure_message (st : locals) : str :=
  u "Gemini API failed after trying models=" ++ repr_list (candidate_models st)
    ++ u " last_error=" ++ str_of_opt (last_err st) ++ u ". "
    ++ u "Set GEMINI_MODEL or GEMINI_PREFERRED_FAMILY to override.".

Definition initial_locals (model : str) (w : world) : locals :=
  {| candidate_models := initial_candidates model; attempted := [];
     last_err := None; cache := w_model_list_cache w |}.

(** [generate_gemini_response] from [alternates_map] on: the candidates
    are tried, and the function raises when the loop ends. *)
Definition try_candidates (api_key model task_type : str) (payload : json) (w : world)
  : outcome json * world :=
  let st := initial_locals model w in
  match candidate_loop api_key task_type payload (candidate_models st) st w with
  | (Some r, _, w) => (r, w)
  | (None, st, w) => (Raise (GeminiError (failure_message st)), w)
  end.

(** [base64.b64encode(bytes).decode()] *)
Definition b64_char (x : Z) : char :=
  Z.to_N (if x <? 26 then 65 + x
          else if x <? 52 then 97 + (x - 26)
          else if x <? 62 then 48 + (x - 52)
          else if x =? 62 then 43 else 47).

Fixpoint b64encode (bytes : list Z) : str :=
  match bytes with
  | [] => []
  | [a] => [b64_char (a / 4); b64_char (a mod 4 * 16); 61%N; 61%N]
  | [a; b] =>
      [b64_char (a / 4); b64_char (a mod 4 * 16 + b / 16);
       b64_char (b mod 16 * 4); 61%N]
  | a :: b :: c :: rest =>
      [b64_char (a / 4); b64_char (a mod 4 * 16 + b / 16);
       b64_char (b mod 16 * 4 + c / 64); b64_char (c mod 64)] ++ b64encode rest
  end.

(** [resp.headers.get(name, fallback)]: header names compare without
    regard to case. *)
Fixpoint header_get (hs : list (str * str)) (name fallback : str) : str :=
  match hs with
  | [] => fallback
  | (k, v) :: rest =>
      if str_eqb (lower k) (lower name) then v else header_get rest name fallback
  end.

(** [resp.raise_for_status()] for a response to a request for [url]. *)
Definition raise_for_status (url : str) (resp : http_response) : outcome unit :=
  let status := status_code resp in
  if (400 <=? status) && (status <? 500) then
    Raise (HTTPError (str_of_Z status ++ u " Client Error: " ++ reason resp
                        ++ u " for url: " ++ url))
  else if (500 <=? status) && (status <? 600) then
    Raise (HTTPError (str_of_Z status ++ u " Server Error: " ++ reason resp
                        ++ u " for url: " ++ url))
  else Return tt.

Definition image_request (image_url : str) : request :=
  {| rq_method := u "GET"; rq_url := image_url; rq_headers := []; rq_params := [];
     rq_body := JNull; rq_timeout := 10 |}.

(** The [try] block that downloads the image: the part to add to
    [content_parts]. *)
Definition fetch_image (image_url : str) (w : world) : outcome json * world :=
  match send (image_request image_url) w with
  | (NetworkError e, w) => (Raise (OtherException e), w)
  | (Response img_response, w) =>
      match raise_for_status image_url img_response with
      | Raise e => (Raise e, w)
      | Return _ =>
          let img_b64 := b64encode (content img_response) in
          (Return (JDict [ (u "inline_data",
                             JDict [ (u "mime_type",
                                       JStr (header_get (resp_headers img_response)
                                                        (u "content-type")
                                                        (u "image/jpeg")));
                                     (u "data", JStr img_b64) ]) ]), w)
      end
  end.

(** The API key: [GEMINI_NEW_API_KEY] when asked for and set, else
    [GEMINI_API_KEY]. *)
Definition select_api_key (use_new_key : bool) (w : world) : outcome str :=
  if use_new_key then
    if opt_truthy (getenv w (u "GEMINI_NEW_API_KEY"))
    then Return (or_empty (getenv w (u "GEMINI_NEW_API_KEY")))
    else if opt_truthy (getenv w (u "GEMINI_API_KEY"))
    then Return (or_empty (getenv w (u "GEMINI_API_KEY")))
    else Raise (GeminiError
                  (u "Neither GEMINI_NEW_API_KEY nor GEMINI_API_KEY found in environment"))
  else
    if opt_truthy (getenv w (u "GEMINI_API_KEY"))
    then Return (or_empty (getenv w (u "GEMINI_API_KEY")))
    else Raise (GeminiError (u "GEMINI_API_KEY not found in environment")).

(** The model after the environment override of the default models. *)
Definition resolve_model (model : str) (w : world) : str :=
  if str_eqb model (u "gemini-1.5-flash") || str_eqb model (u "gemini-2.5-flash") then
    let env_model :=
      if opt_truthy (getenv w (u "GEMINI_MODEL"))
      then or_empty (getenv w (u "GEMINI_MODEL"))
      else or_empty (getenv w (u "INTELLIHUB_GEMINI_MODEL")) in
    if truthy env_model then strip env_model else model
  else model.

Definition gemini_payload (content_parts : list json) (temperature : Q) : json :=
  JDict [ (u "contents", JList [ JDict [ (u "parts", JList content_parts) ] ]);
          (u "generationConfig",
            JDict [ (u "temperature", JFloat temperature);
                    (u "maxOutputTokens", JInt 2048);
                    (u "topP", JFloat (95 # 100));
                    (u "topK", JInt 40) ]) ].

Definition generate_gemini_response (prompt : str) (image_url : option str)
    (temperature : Q) (model : str) (use_new_key : bool) (w : world)
  : outcome json * world :=
  match select_api_key use_new_key w with
  | Raise e => (Raise e, w)
  | Return api_key =>
      let model := resolve_model model w in
      let task_type := classify_task prompt image_url in
      let content_parts := [ JDict [ (u "text", JStr prompt) ] ] in
      if opt_truthy image_url then
        match fetch_image (or_empty image_url) w with
        | (Raise e, w) =>
            (Raise (GeminiError (u "Failed to fetch image for Gemini: " ++ exn_str e)), w)
        | (Return part, w) =>
            try_candidates api_key model task_type
                           (gemini_payload (content_parts ++ [part]) temperature) w
        end
      else
        try_candidates api_key model task_type
                       (gemini_payload content_parts temperature) w
  end.

End Gemini.

(* ===================================================================== *)
(** ** Vocabulary of the statements *)
(* ===================================================================== *)






(** The text mentions [429]. *)
Definition has429 (a : str) : Prop := str_in (u "429") a = true.

(** The name of the [idx]-th indexed credential variable. *)
Definition indexed_name (idx : nat) : str := u "OPENROUTER_API_KEY_" ++ str_of_nat idx.

Section ResearchProvider.

Variable generate_research_response :
  str -> option str -> Q -> world -> outcome json * world.


End ResearchProvider.


(** The [raw] field of a normalized response. *)
Definition raw_of (r : json) : option json :=
  match r with
  | JDict d => dict_get d (u "raw")
  | _ => None
  end.

(** The raw payload of the guidance response. *)
Definition rate_limited_marker : json := JDict [ (u "error", JStr (u "rate_limited")) ].

(** The cache holds [r] under [key], stored not longer ago than the TTL. *)
Definition cached_fresh (key : str) (r : json) (w : world) : Prop :=
  exists e, w_response_cache w !! key = Some e
            /\ response e = r
            /\ w_now w - timestamp e < CACHE_TTL.

(** The request carries [payload] as its body. *)
Definition carries (payload : list (str * json)) (rq : request) : Prop :=
  rq_body rq = JDict payload.

(** The payload the coordinator sends for [model]. *)
Definition payload_for (payload : list (str * json)) (model : str) : list (str * json) :=
  dict_set payload (u "model") (JStr model).

(** How a two-model dispatch ends once the second model has been tried. *)
Definition after_second (rB : outcome json) : outcome json :=
  match rB with
  | Return data => Return data
  | Raise e2 =>
      if str_in (u "429") (exn_str e2)
      then Raise (RateLimitExhaustedError
                    (u "All models/keys hit external 429 rate limits."))
      else Raise e2
  end.

(* ===================================================================== *)
(** ** Scenarios *)
(* ===================================================================== *)

Definition no_metrics : metrics :=
  {| attempts := 0; successful_calls := 0; errors_total := 0;
     bytes_received := 0; last_latency_ms := 0 |}.

(** A process that has just started, with the given environment and
    remote side. *)
Definition fresh_world (env : list (str * str)) (upstream : nat -> request -> reply)
  : world :=
  {| w_env := list_to_map env; w_response_cache := ∅; w_metrics := no_metrics;
     w_now := 0; w_upstream := upstream; w_requests := [];
     w_model_list_cache := None |}.

(** A response with the given status, text and JSON body, after 100 ms. *)
Definition answer (status : Z) (body_text : str) (body : option json) : reply :=
  {| elapsed_ms := 100;
     result := Response {| status_code := status; reason := []; resp_headers := [];
                           text := body_text; json_value := body;
                           content := encode body_text |} |}.

(** The model a request asks for. *)
Definition model_of (rq : request) : option json :=
  match rq_body rq with
  | JDict d => dict_get d (u "model")
  | _ => None
  end.

(** A chat completion whose message content is [content]. *)
Definition completion (content : json) : json :=
  JDict [ (u "choices",
            JList [ JDict [ (u "message", JDict [ (u "content", content) ]) ] ]) ].

(** A provider client that cannot be used (its module fails to import,
    or it has no backend): the research and local clients of the
    scenarios. *)
Definition unavailable (prompt : str) (image_url : option str) (temperature : Q)
    (w : world) : outcome json * world :=
  (Raise (OtherException (u "unavailable")), w).

(** The direct Gemini client as [generate_response] calls it, with the
    default model and key. *)
Definition gemini_direct (prompt : str) (image_url : option str) (temperature : Q)
    (w : world) : outcome json * world :=
  Gemini.generate_gemini_response prompt image_url temperature
                                  (u "gemini-2.5-flash") false w.


(** Model [model-a] is throttled, every other model answers. *)
Definition a_throttled : nat -> request -> reply :=
  fun _ rq =>
    if json_is_str (model_of rq) (u "model-a")
    then answer 429 (u "rate limited") None
    else answer 200 (u "{}") (Some (completion (JStr (u "hello")))).

(** Model [model-a] is down with a 503, every other model answers. *)
Definition a_down : nat -> request -> reply :=
  fun _ rq =>
    if json_is_str (model_of rq) (u "model-a")
    then answer 503 (u "loading") None
    else answer 200 (u "{}") (Some (completion (JStr (u "hello")))).

Definition one_key : list (str * str) := [ (u "OPENROUTER_API_KEYS", u "k1") ].

(** The first key is refused, any other key is served. *)
Definition first_key_refused : nat -> request -> reply :=
  fun _ rq =>
    if existsb (fun h => str_eqb (snd h) (u "Bearer k1")) (rq_headers rq)
    then answer 401 (u "unauthorized") None
    else answer 200 (u "{}") (Some (completion (JStr (u "hi there")))).

Definition two_keys : list (str * str) := [ (u "OPENROUTER_API_KEYS", u "k1,k2") ].

(** Every request is served. *)
Definition serving : nat -> request -> reply :=
  fun _ _ => answer 200 (u "{}") (Some (completion (JStr (u "hi there")))).

(** Every generation request gets a 404, except one for the model that
    discovery finds, which would be served; the model listing names that
    model. *)
Definition discovered_only : nat -> request -> reply :=
  fun _ rq =>
    if str_eqb (rq_method rq) (u "GET") then
      answer 200 (u "{}")
             (Some (JDict [ (u "models",
                              JList [ JDict [ (u "name",
                                                JStr (u "models/gemini-2.5-pro-exp")) ] ]) ]))
    else if str_in (u "gemini-2.5-pro-exp") (rq_url rq) then
      answer 200 (u "{}")
             (Some (JDict [ (u "candidates",
                              JList [ JDict [ (u "content",
                                JDict [ (u "parts",
                                          JList [ JDict [ (u "text", JStr (u "hi")) ] ]) ]) ] ]) ]))
    else answer 404 (u "model not found") None.

(** The world [d] milliseconds later, nothing else having happened. *)
Definition later (d : Z) (w : world) : world := set_now (w_now w + d) w.

Definition served_once : outcome json * world :=
  generate_response unavailable unavailable gemini_direct (u "hello") None (7 # 10)
                    (fresh_world one_key serving).

Definition served_response : json :=
  match fst served_once with Return r => r | Raise _ => JNull end.

(** The first call of the scenario in which a [|] moves from the prompt
    to the image reference. *)
Definition piped_once : outcome json * world :=
  generate_response unavailable unavailable gemini_direct (u "code|a") None (7 # 10)
                    (fresh_world one_key serving).

Definition piped_response : json :=
  match fst piped_once with Return r => r | Raise _ => JNull end.

(** What one run of the rotation does to the process: [sent] is what it
    sent, [won] says whether it returned a value. *)
Definition accounted (w w' : world) (sent : list request) (won : bool) : Prop :=
  w_requests w' = w_requests w ++ sent
  /\ attempts (w_metrics w') = attempts (w_metrics w) + Z.of_nat (length sent)
  /\ successful_calls (w_metrics w')
     = successful_calls (w_metrics w) + (if won then 1 else 0)
  /\ w_response_cache w' = w_response_cache w
  /\ w_env w' = w_env w
  /\ w_upstream w' = w_upstream w.

(** The outcome is a returned value. *)
Definition returned {A} (r : outcome A) : bool :=
  match r with Return _ => true | Raise _ => false end.

Definition opt_returned {A} (r : option (outcome A)) : bool :=
  match r with Some (Return _) => true | _ => false end.


(** A line of white space only. *)
Definition blank (l : str) : Prop := strip l = [].

(** No two blank lines in a row. *)
Fixpoint no_double_blank (ls : list str) : Prop :=
  match ls with
  | a :: rest =>
      match rest with
      | b :: _ => ~ (blank a /\ blank b)
      | [] => True
      end /\ no_double_blank rest
  | [] => True
  end.

(** Lines as [clean_markdown_formatting] leaves them: no white space at
    the end of a line, no two blank lines in a row, and neither the first
    nor the last line blank. *)
Definition tidy_lines (ls : list str) : Prop :=
  Forall (fun l => rstrip l = l) ls
  /\ no_double_blank ls
  /\ ~ blank (List.hd [] ls)
  /\ ~ blank (List.last ls []).

(** An atom that cannot match without consuming a code point that
    satisfies [P]: a literal that satisfies [P], or a repetition, at least
    once, of a class inside [P]. *)
Definition atom_needs (P : char -> Prop) (a : Re.atom) : Prop :=
  match a with
  | Re.Lit c => P c
  | Re.Rep cls lo _ _ => (1 <= lo)%nat /\ forall x, cls x = true -> P x
  | _ => False
  end.

(** The pattern matches at no position of [s], where [prev] is the code
    point before [s]. *)
Fixpoint never_matches (pat : Re.pattern) (prev : option char) (s : str) : Prop :=
  match s with
  | [] => True
  | c :: s' =>
      Re.match_here pat prev s O None None = None /\ never_matches pat (Some c) s'
  end.
(** A code point that none of the markup patterns can start from or run
    through. *)
Definition markup_free (c : char) : Prop :=
  c <> ch BACKTICK /\ c <> ch STAR /\ c <> ch UNDERSCORE /\ c <> NL.

(** One line of text without markup: no surrounding white space, no
    back-tick, star, underscore or newline, and a first code point that
    opens no header, bullet or numbered item. *)
Definition plain_text (t : str) : Prop :=
  strip t = t /\ Forall markup_free t
  /\ match t with
     | c :: _ => c <> ch "#"%char /\ bullet_marker c = false /\ Re.digit c = false
     | [] => False
     end.

(** The payload is a chat completion whose first choice carries a
    message with the given content. *)
Definition message_content (result content : json) : Prop :=
  exists d c0 others m,
    result = JDict d
    /\ dict_get d (u "choices") = Some (JList (JDict c0 :: others))
    /\ dict_get c0 (u "message") = Some (JDict m)
    /\ dict_get m (u "content") = Some content.





(** The payload of a request without image. *)
Definition text_only_payload (prompt : str) (temperature : Q) : json :=
  Gemini.gemini_payload [ JDict [ (u "text", JStr prompt) ] ] temperature.

(** The next [k] requests, whatever they are, fail before any response
    arrives. *)
Definition unreachable_for (k : nat) (w : world) : Prop :=
  forall n rq,
    (length (w_requests w) <= n < length (w_requests w) + k)%nat ->
    exists e, result (w_upstream w n rq) = NetworkError e.

(** The candidates a call without image tries for [model], and the
    requests it sends for them. *)
Definition gemini_candidates (model : str) (w : world) : list str :=
  Gemini.initial_candidates (Gemini.resolve_model model w).

Definition gemini_request_for (prompt : str) (temperature : Q) (w : world)
    (candidate : str) : request :=
  Gemini.generate_request candidate (or_empty (getenv w (u "GEMINI_API_KEY")))
                          (text_only_payload prompt temperature).


(** A part [{"text": s}] of a Gemini answer. *)
Definition text_part (s : str) : json := JDict [ (u "text", JStr s) ].

(** The environment with a Gemini key only. *)
Definition gemini_only : list (str * str) := [ (u "GEMINI_API_KEY", u "key") ].

(** A Gemini answer with one text part. *)
Definition gemini_answer (s : str) : json :=
  JDict [ (u "candidates",
            JList [ JDict [ (u "content",
                              JDict [ (u "parts", JList [ text_part s ]) ]) ] ]) ].


(** The first request does not get through, the following ones are
    served. *)
Definition flaky_once : nat -> request -> reply :=
  fun n _ =>
    if Nat.eqb n 0 then {| elapsed_ms := 100; result := NetworkError (u "timed out") |}
    else answer 200 (u "{}") (Some (gemini_answer (u "hi there"))).





(** The download of the image fails: no response, or a response with a
    client or server error status. *)
Definition download_fails (r : http_result) : Prop :=
  match r with
  | NetworkError _ => True
  | Response resp => 400 <= status_code resp < 600
  end.

(** The image server answers 404, everything else is served. *)
Definition image_missing : nat -> request -> reply :=
  fun _ rq =>
    if str_eqb (rq_method rq) (u "GET")
    then {| elapsed_ms := 100;
            result := Response {| status_code := 404; reason := u "Not Found";
                                  resp_headers := []; text := []; json_value := None;
                                  content := [] |} |}
    else answer 200 (u "{}") (Some (gemini_answer (u "hi there"))).

(* ===================================================================== *)
(** * Properties *)
(* ===================================================================== *)

(** ** Text lemmas *)

Lemma startswith_spec (t s : str) :
  startswith t s = true <-> exists post, s = t ++ post.
Proof.
  revert s; induction t as [|x t IH]; intros s; simpl.
  - split; [intros _; exists s; reflexivity | reflexivity].
  - destruct s as [|y s]; simpl.
    + split; [discriminate | intros [post H]; discriminate].
    + rewrite andb_true_iff, N.eqb_eq, IH. split.
      * intros [-> [post ->]]. exists post. reflexivity.
      * intros [post H]. injection H as -> ->. split; [reflexivity | eauto].
Qed.

Lemma str_in_spec (t s : str) :
  str_in t s = true <-> exists pre post, s = pre ++ t ++ post.
Proof.
  induction s as [|c s IH]; simpl.
  - rewrite orb_false_r, startswith_spec. split.
    + intros [post H]. exists [], post. exact H.
    + intros [pre [post H]]. destruct pre; simpl in H.
      * exists post. exact H.
      * discriminate.
  - rewrite orb_true_iff, startswith_spec, IH. split.
    + intros [[post H] | [pre [post H]]].
      * exists [], post. exact H.
      * exists (c :: pre), post. simpl. rewrite H. reflexivity.
    + intros [pre [post H]]. destruct pre as [|c' pre]; simpl in H.
      * left. exists post. exact H.
      * right. injection H as _ H. exists pre, post. exact H.
Qed.



Lemma str_in_refl (t : str) : str_in t t = true.
Proof. apply str_in_spec. exists [], []. simpl. rewrite app_nil_r. reflexivity. Qed.


Lemma str_in_nonempty (t s : str) : t <> [] -> str_in t s = true -> s <> [].
Proof.
  intros Ht H. apply str_in_spec in H as [pre [post ->]].
  destruct pre; destruct t; simpl; congruence.
Qed.

(** ** The indexed credentials: the fuel is never used up *)

Lemma digits_of_uint_inj (a b : Decimal.uint) :
  digits_of_uint a = digits_of_uint b -> a = b.
Proof.
  revert b; induction a; destruct b; simpl; intros H;
    try discriminate H; try reflexivity;
    injection H as H; f_equal; auto.
Qed.

Lemma str_of_nat_inj (n m : nat) : str_of_nat n = str_of_nat m -> n = m.
Proof.
  unfold str_of_nat. intros H. apply digits_of_uint_inj in H.
  rewrite <- (DecimalNat.Unsigned.of_to n), <- (DecimalNat.Unsigned.of_to m), H.
  reflexivity.
Qed.

Lemma indexed_name_inj (n m : nat) : indexed_name n = indexed_name m -> n = m.
Proof. unfold indexed_name. intros H. apply app_inv_head in H. apply str_of_nat_inj, H. Qed.

Lemma indexed_keys_length w : forall fuel idx,
  (length (indexed_keys w fuel idx) <= fuel)%nat.
Proof.
  induction fuel as [|fuel IH]; intros idx; simpl; [lia|].
  destruct (getenv w _) as [[|c v]|]; simpl; try lia.
  specialize (IH (S idx)). lia.
Qed.

Lemma indexed_keys_full w : forall fuel idx,
  length (indexed_keys w fuel idx) = fuel ->
  forall i, (i < fuel)%nat -> is_Some (w_env w !! indexed_name (idx + i)).
Proof.
  induction fuel as [|fuel IH]; intros idx H i Hi; [lia|].
  cbn [indexed_keys] in H. unfold getenv in H. fold (indexed_name idx) in H.
  destruct (w_env w !! indexed_name idx) as [[|c v]|] eqn:E;
    cbn [length] in H; try lia.
  destruct i as [|i].
  - rewrite Nat.add_0_r, E. eauto.
  - replace (idx + S i)%nat with (S idx + i)%nat by lia.
    apply IH; [|lia]. injection H as H. exact H.
Qed.

Lemma indexed_keys_stable w : forall fuel idx k,
  (length (indexed_keys w fuel idx) < fuel)%nat ->
  indexed_keys w (fuel + k) idx = indexed_keys w fuel idx.
Proof.
  induction fuel as [|fuel IH]; intros idx k H; [simpl in H; lia|].
  simpl in *. destruct (getenv w _) as [[|c v]|]; try reflexivity.
  simpl in H. rewrite IH; [reflexivity|lia].
Qed.

Lemma indexed_keys_stop w :
  (length (indexed_keys w (S (size (w_env w))) 1) < S (size (w_env w)))%nat.
Proof.
  pose proof (indexed_keys_length w (S (size (w_env w))) 1) as Hle.
  destruct (decide (length (indexed_keys w (S (size (w_env w))) 1)
                    = S (size (w_env w)))) as [Hfull|]; [|lia].
  exfalso.
  pose proof (indexed_keys_full w _ _ Hfull) as Hin.
  set (l := (fun i => indexed_name (1 + i)) <$> seq 0 (S (size (w_env w)))).
  assert (ND : NoDup l).
  { apply NoDup_fmap_2; [|apply NoDup_seq].
    intros a b Hab. apply indexed_name_inj in Hab. lia. }
  assert (Sub : (list_to_set l : gset str) ⊆ dom (w_env w)).
  { intros x Hx. apply elem_of_list_to_set in Hx.
    apply list_elem_of_fmap in Hx as [i [-> Hi]].
    apply elem_of_seq in Hi. apply elem_of_dom. apply Hin. lia. }
  apply subseteq_size in Sub.
  rewrite size_list_to_set in Sub by exact ND.
  rewrite size_dom in Sub. unfold l in Sub.
  rewrite length_fmap, length_seq in Sub. lia.
Qed.

(** More fuel gives the same credentials: the loop has stopped at an
    unset index before the bound is reached. *)
Lemma indexed_keys_enough_fuel w k :
  indexed_keys w (S (size (w_env w)) + k) 1 = indexed_keys w (S (size (w_env w))) 1.
Proof. apply indexed_keys_stable, indexed_keys_stop. Qed.

(** ** The classifier *)

Lemma lower_app (a b : str) : lower (a ++ b) = lower a ++ lower b.
Proof. apply List.map_app. Qed.






(** ** Key rotation under rate limiting *)









Lemma has429_truthy t : has429 t -> truthy t = true.
Proof. intros H. destruct t; [vm_compute in H; discriminate|reflexivity]. Qed.










Section RouterFacts.

Variable generate_research_response :
  str -> option str -> Q -> world -> outcome json * world.
Variable generate_local_response :
  str -> option str -> Q -> world -> outcome json * world.
Variable generate_gemini_response :
  str -> option str -> Q -> world -> outcome json * world.

Local Abbreviation generate_response' :=
  (generate_response generate_research_response generate_local_response
                     generate_gemini_response).
Local Abbreviation dispatch' :=
  (dispatch generate_local_response generate_gemini_response).



End RouterFacts.
(** ** What a successful call leaves in the cache *)

Lemma cache_response_fresh key r w : cached_fresh key r (cache_response key r w).
Proof.
  eexists. split; [apply lookup_insert_eq|]. split; [reflexivity|].
  simpl. rewrite Z.sub_diag. reflexivity.
Qed.

Section CacheFacts.

Variable generate_research_response :
  str -> option str -> Q -> world -> outcome json * world.
Variable generate_local_response :
  str -> option str -> Q -> world -> outcome json * world.
Variable generate_gemini_response :
  str -> option str -> Q -> world -> outcome json * world.

Local Abbreviation generate_response' :=
  (generate_response generate_research_response generate_local_response
                     generate_gemini_response).
Local Abbreviation dispatch' :=
  (dispatch generate_local_response generate_gemini_response).
Local Abbreviation last_resort' :=
  (last_resort generate_local_response generate_gemini_response).

Lemma finish_stores task_type key raw model_used w r w1 :
  finish task_type key raw model_used w = (Return r, w1) -> cached_fresh key r w1.
Proof. unfold finish. intros H. injection H as <- <-. apply cache_response_fresh. Qed.

Lemma last_resort_stores e prompt image_url temperature task_type key payload
    api_keys w r w1 :
  last_resort' e prompt image_url temperature task_type key payload api_keys w
    = (Return r, w1) ->
  cached_fresh key r w1.
Proof.
  unfold last_resort. destruct (request_with_rotation _ _ _ _ _) as [[raw|e1] w2].
  - apply finish_stores.
  - destruct (json_is_str _ _); [discriminate|].
    destruct (generate_local_response _ _ _ _) as [[lr|le] w3].
    + intros H. injection H as <- <-. apply cache_response_fresh.
    + destruct (opt_truthy _); [|discriminate].
      destruct (generate_gemini_response _ _ _ _) as [[gr|ge] w4]; [|discriminate].
      intros H. injection H as <- <-. apply cache_response_fresh.
Qed.

Lemma dispatch_stores prompt image_url temperature task_type key w r w1 :
  dispatch' prompt image_url temperature task_type key w = (Return r, w1) ->
  raw_of r <> Some rate_limited_marker ->
  cached_fresh key r w1.
Proof.
  unfold dispatch. destruct (_ && _).
  - destruct (generate_gemini_response _ _ _ _) as [[gr|ge] w2]; [|discriminate].
    intros H _. injection H as <- <-. apply cache_response_fresh.
  - destruct (try_models_with_fallback _ _ _ _) as [[raw|e] w2].
    + destruct (py_get raw _) as [found|err]; [|discriminate].
      intros H _. eapply finish_stores; eauto.
    + destruct (is_RateLimitExhaustedError e).
      * intros H N. injection H as <- <-. exfalso. apply N. reflexivity.
      * destruct (is_RuntimeError e); [|discriminate].
        intros H _. eapply last_resort_stores; eauto.
Qed.

(** A call that returns anything but the rate-limit guidance leaves its
    result in the cache, fresh. *)
Lemma generate_response_stores prompt image_url temperature w r w1 :
  generate_response' prompt image_url temperature w = (Return r, w1) ->
  raw_of r <> Some rate_limited_marker ->
  cached_fresh (generate_cache_key prompt image_url (classify_task prompt image_url))
               r w1.
Proof.
  unfold generate_response. cbv zeta.
  set (key := generate_cache_key prompt image_url (classify_task prompt image_url)).
  unfold get_cached_response.
  destruct (w_response_cache w !! key) as [c|] eqn:Ec.
  - destruct (w_now w - timestamp c <? CACHE_TTL) eqn:Et.
    + destruct (json_truthy (response c)) eqn:Ej.
      * intros H _. injection H as <- <-. exists c. split; [exact Ec|].
        split; [reflexivity|]. apply Z.ltb_lt. exact Et.
      * destruct (_ && _).
        -- destruct (generate_research_response _ _ _ _) as [[rr|re] w2].
           ++ intros H _. injection H as <- <-. apply cache_response_fresh.
           ++ apply dispatch_stores.
        -- apply dispatch_stores.
    + cbv iota. destruct (_ && _).
      * destruct (generate_research_response _ _ _ _) as [[rr|re] w2].
        -- intros H _. injection H as <- <-. apply cache_response_fresh.
        -- apply dispatch_stores.
      * apply dispatch_stores.
  - cbv iota. destruct (_ && _).
    + destruct (generate_research_response _ _ _ _) as [[rr|re] w2].
      * intros H _. injection H as <- <-. apply cache_response_fresh.
      * apply dispatch_stores.
    + apply dispatch_stores.
Qed.

(** A fresh, truthy entry is returned as it is, at any temperature, and
    the world is left untouched. *)
Lemma generate_response_hit prompt image_url temperature r w :
  cached_fresh (generate_cache_key prompt image_url (classify_task prompt image_url)) r w ->
  json_truthy r = true ->
  generate_response' prompt image_url temperature w = (Return r, w).
Proof.
  intros [e [He [Hr Ht]]] Hj. unfold generate_response. cbv zeta.
  unfold get_cached_response. rewrite He.
  apply Z.ltb_lt in Ht. rewrite Ht, Hr, Hj. reflexivity.
Qed.

End CacheFacts.
(** ** What the rotation sends and raises *)

Lemma try_key_sends headers payload key_index key backoff :
  forall remaining attempt st w r st' w',
    try_key headers payload key_index key backoff remaining attempt st w = (r, st', w') ->
    (exists sent, w_requests w' = w_requests w ++ sent
                  /\ Forall (carries payload) sent
                  /\ (remaining <> O -> sent <> []))
    /\ (forall e, r = Some (Raise e) -> is_RuntimeError e = true).
Proof.
  induction remaining as [|remaining IH]; intros attempt st w r st' w' H.
  - simpl in H. injection H as <- <- <-. split; [|discriminate].
    exists []. rewrite app_nil_r. repeat split; auto; congruence.
  - cbn [try_key] in H. unfold send in H.
    assert (K : forall st1 w1,
               w_requests w1 = w_requests w ++ [openrouter_request headers key payload] ->
               try_key headers payload key_index key backoff remaining (S attempt) st1 w1
                 = (r, st', w') ->
               (exists sent, w_requests w' = w_requests w ++ sent
                             /\ Forall (carries payload) sent
                             /\ (S remaining <> O -> sent <> []))
               /\ (forall e, r = Some (Raise e) -> is_RuntimeError e = true)).
    { intros st1 w1 Hw E. destruct (IH _ _ _ _ _ _ E) as [[sent [Hs [F _]]] R].
      split; [|exact R].
      exists (openrouter_request headers key payload :: sent).
      rewrite Hs, Hw, <- app_assoc. repeat split.
      - constructor; [reflexivity|exact F].
      - congruence. }
    assert (One : forall w1,
               w_requests w1 = w_requests w ++ [openrouter_request headers key payload] ->
               exists sent, w_requests w1 = w_requests w ++ sent
                            /\ Forall (carries payload) sent
                            /\ (S remaining <> O -> sent <> [])).
    { intros w1 Hw. exists [openrouter_request headers key payload].
      repeat split; [exact Hw| |congruence].
      constructor; [reflexivity|constructor]. }
    destruct (result _) as [e | resp].
    + eapply K; [|exact H]; reflexivity.
    + cbv zeta in H. destruct (status_code resp =? 200).
      * destruct (json_value resp) as [data|]; injection H as <- <- <-.
        -- split; [apply One; reflexivity|]. intros e E. discriminate.
        -- split; [apply One; reflexivity|]. intros e E. injection E as <-. reflexivity.
      * destruct ((status_code resp =? 401) || (status_code resp =? 403)).
        -- injection H as <- <- <-. split; [apply One; reflexivity|discriminate].
        -- destruct (status_code resp =? 429).
           ++ eapply K; [|exact H]; reflexivity.
           ++ injection H as <- <- <-. split; [apply One; reflexivity|discriminate].
Qed.

Lemma rotate_keys_sends headers payload retries backoff :
  forall api_keys key_index st w r st' w',
    rotate_keys headers payload retries backoff key_index api_keys st w = (r, st', w') ->
    (exists sent, w_requests w' = w_requests w ++ sent
                  /\ Forall (carries payload) sent
                  /\ (retries <> O -> api_keys <> [] -> sent <> []))
    /\ (forall e, r = Some (Raise e) -> is_RuntimeError e = true).
Proof.
  induction api_keys as [|key rest IH]; intros key_index st w r st' w' H.
  - simpl in H. injection H as <- <- <-. split; [|discriminate].
    exists []. rewrite app_nil_r. repeat split; auto; congruence.
  - cbn [rotate_keys] in H.
    destruct (try_key _ _ _ _ _ _ _ _ _) as [[r1 st1] w1] eqn:E1.
    destruct (try_key_sends _ _ _ _ _ _ _ _ _ _ _ _ E1) as [[s1 [Hs1 [F1 N1]]] R1].
    destruct r1 as [r1|].
    + injection H as <- <- <-. split; [|exact R1].
      exists s1. repeat split; auto.
    + destruct (IH _ _ _ _ _ _ H) as [[s2 [Hs2 [F2 _]]] R2]. split; [|exact R2].
      exists (s1 ++ s2). rewrite Hs2, Hs1, <- app_assoc. repeat split.
      * apply Forall_app; auto.
      * intros Hr _ Hnil. apply app_eq_nil in Hnil as [Hnil _]. exact (N1 Hr Hnil).
Qed.

Lemma request_with_rotation_sends payload api_keys retries backoff w r w' :
  request_with_rotation payload api_keys retries backoff w = (r, w') ->
  (exists sent, w_requests w' = w_requests w ++ sent
                /\ Forall (carries payload) sent
                /\ (retries <> O -> api_keys <> [] -> sent <> []))
  /\ (forall e, r = Raise e -> is_RuntimeError e = true).
Proof.
  unfold request_with_rotation. destruct api_keys as [|k ks] eqn:Ek.
  - intros H. injection H as <- <-. split.
    + exists []. rewrite app_nil_r. repeat split; auto; congruence.
    + intros e E. injection E as <-. reflexivity.
  - rewrite <- Ek.
    destruct (rotate_keys _ _ _ _ _ _ _ _) as [[r1 st1] w1] eqn:E1.
    destruct (rotate_keys_sends _ _ _ _ _ _ _ _ _ _ _ E1) as [[s1 [Hs1 [F1 N1]]] R1].
    destruct r1 as [r1|].
    + intros H. injection H as <- <-. split.
      * exists s1. repeat split; auto.
      * intros e ->. apply R1. reflexivity.
    + destruct (_ && _); intros H; injection H as <- <-.
      * split; [exists s1; repeat split; auto|]. intros e E. injection E as <-. reflexivity.
      * split; [exists s1; repeat split; auto|]. intros e E. injection E as <-. reflexivity.
Qed.

Lemma no_keys_error_has_no_429 payload retries backoff w e w' :
  request_with_rotation payload [] retries backoff w = (Raise e, w') ->
  str_in (u "429") (exn_str e) = false.
Proof. simpl. intros H. injection H as <- _. vm_compute. reflexivity. Qed.
(** ** Fallback ordering *)

(** C2.  With the candidate list [A; B]: when the attempt on [A] fails
    with an error whose text contains [429], the coordinator goes on to
    attempt [B] (requests carrying [B] are sent after those for [A]) and
    the dispatch ends as [B]'s attempt decides; when the attempt on [A]
    fails with an error whose text does not contain [429], the
    coordinator raises that very error in the world [A]'s attempt left,
    so nothing is sent for [B]. *)
Theorem fallback_tries_second_model_only_after_429 :
  forall (A B : str) (payload : list (str * json)) (api_keys : list str)
         (w w1 : world) (e : exn),
    request_with_rotation (payload_for payload A) api_keys 1 5 w = (Raise e, w1) ->
    if str_in (u "429") (exn_str e) then
      exists rB w2 sent,
        request_with_rotation (payload_for payload B) api_keys 1 5 w1 = (rB, w2)
        /\ w_requests w2 = w_requests w1 ++ sent
        /\ sent <> []
        /\ Forall (carries (payload_for payload B)) sent
        /\ try_models_with_fallback [A; B] payload api_keys w = (after_second rB, w2)
    else
      try_models_with_fallback [A; B] payload api_keys w = (Raise e, w1).
Proof.
  intros A B payload api_keys w w1 e HA.
  destruct (request_with_rotation_sends _ _ _ _ _ _ _ HA) as [_ RA].
  specialize (RA e eq_refl).
  unfold try_models_with_fallback. cbn [length fallback_loop].
  fold (payload_for payload A). fold (payload_for payload B). rewrite HA, RA.
  destruct (str_in (u "429") (exn_str e)) eqn:E429; cbn [negb andb Nat.ltb Nat.leb].
  - destruct (request_with_rotation (payload_for payload B) api_keys 1 5 w1)
      as [rB w2] eqn:HB.
    destruct (request_with_rotation_sends _ _ _ _ _ _ _ HB) as [[sent [Hs [F N]]] RB].
    exists rB, w2, sent. split; [reflexivity|]. split; [exact Hs|].
    assert (Hk : api_keys <> []).
    { intros ->. rewrite (no_keys_error_has_no_429 _ _ _ _ _ _ HA) in E429.
      discriminate. }
    split; [apply N; [discriminate|exact Hk]|]. split; [exact F|].
    destruct rB as [data|e2]; [reflexivity|].
    rewrite (RB e2 eq_refl). cbn [after_second].
    destruct (str_in (u "429") (exn_str e2)) eqn:E2; cbn [negb andb]; [|reflexivity].
    cbn [opt_truthy str_of_opt]. rewrite E2.
    rewrite (has429_truthy _ E2). reflexivity.
  - reflexivity.
Qed.
(** ** The entry point under rate limiting, and the cache *)



Section RouterTheorems.

Variable generate_research_response :
  str -> option str -> Q -> world -> outcome json * world.
Variable generate_local_response :
  str -> option str -> Q -> world -> outcome json * world.
Variable generate_gemini_response :
  str -> option str -> Q -> world -> outcome json * world.

Local Abbreviation generate_response' :=
  (generate_response generate_research_response generate_local_response
                     generate_gemini_response).



Lemma later_cached_fresh key r w d :
  (forall e, w_response_cache w !! key = Some e ->
             w_now w + d - timestamp e < CACHE_TTL) ->
  cached_fresh key r w -> cached_fresh key r (later d w).
Proof.
  intros H [e [He [Hr _]]]. exists e. split; [exact He|]. split; [exact Hr|].
  simpl. apply H. exact He.
Qed.

(** The second of two calls for the same prompt and image, made while the
    entry the first left is fresh, returns the first's result and leaves
    the world as it found it. *)
Lemma second_call_is_served_from_cache prompt image_url t1 t2 w r w1 d :
  generate_response' prompt image_url t1 w = (Return r, w1) ->
  raw_of r <> Some rate_limited_marker ->
  json_truthy r = true ->
  (forall e,
      w_response_cache w1
        !! generate_cache_key prompt image_url (classify_task prompt image_url) = Some e ->
      w_now w1 + d - timestamp e < CACHE_TTL) ->
  generate_response' prompt image_url t2 (later d w1) = (Return r, later d w1).
Proof.
  intros H1 Hraw Hj Hd.
  apply generate_response_hit; [|exact Hj].
  apply later_cached_fresh; [exact Hd|].
  eapply generate_response_stores; eauto.
Qed.

(** C9.  The cache key is computed from the prompt, the image reference
    and the task category only; temperature is not an input of
    [generate_cache_key].  So when a call at temperature [t1] returns a
    response (other than the rate-limit guidance, which is not stored), a
    call for the same prompt and image at any temperature [t2], made
    while that entry is within the TTL, returns the response produced at
    [t1]. *)
Theorem cached_response_is_shared_across_temperatures :
  forall (prompt : str) (image_url : option str) (t1 t2 : Q)
         (w w1 : world) (r : json) (d : Z),
    let cache_key :=
      generate_cache_key prompt image_url (classify_task prompt image_url) in
    generate_response' prompt image_url t1 w = (Return r, w1) ->
    raw_of r <> Some rate_limited_marker ->
    json_truthy r = true ->
    (forall e, w_response_cache w1 !! cache_key = Some e ->
               w_now w1 + d - timestamp e < CACHE_TTL) ->
    cached_fresh cache_key r w1
    /\ generate_response' prompt image_url t2 (later d w1) = (Return r, later d w1).
Proof.
  intros prompt image_url t1 t2 w w1 r d cache_key H1 Hraw Hj Hd. split.
  - eapply generate_response_stores; eauto.
  - eapply second_call_is_served_from_cache; eauto.
Qed.

(** C5 (amended).  Two consecutive calls with identical prompt, image and
    temperature, the second made while the entry stored by the first is
    within the TTL: when the first returns a response other than the
    rate-limit guidance, the second sends no request upstream and returns
    exactly the first's result; the two results are the same dictionary,
    with no field telling them apart. *)
Theorem repeated_call_is_answered_without_upstream :
  forall (prompt : str) (image_url : option str) (temperature : Q)
         (w w1 : world) (r : json) (d : Z),
    let cache_key :=
      generate_cache_key prompt image_url (classify_task prompt image_url) in
    generate_response' prompt image_url temperature w = (Return r, w1) ->
    raw_of r <> Some rate_limited_marker ->
    json_truthy r = true ->
    (forall e, w_response_cache w1 !! cache_key = Some e ->
               w_now w1 + d - timestamp e < CACHE_TTL) ->
    exists w2,
      generate_response' prompt image_url temperature (later d w1) = (Return r, w2)
      /\ w_requests w2 = w_requests w1
      /\ w_metrics w2 = w_metrics w1.
Proof.
  intros prompt image_url temperature w w1 r d cache_key H1 Hraw Hj Hd.
  exists (later d w1). split; [|split; reflexivity].
  eapply second_call_is_served_from_cache; eauto.
Qed.

End RouterTheorems.

(** C10.  With an empty credential pool [request_with_rotation] raises
    [RuntimeError] at once: the world after the call is the world before
    it, so no request has been sent and no counter of [_metrics] has
    moved. *)
Theorem empty_pool_raises_before_any_attempt :
  forall (payload : list (str * json)) (max_retries_per_key : nat)
         (backoff_seconds : Z) (w : world),
    request_with_rotation payload [] max_retries_per_key backoff_seconds w
      = (Raise (RuntimeError
                  (u "No API keys found. Set OPENROUTER_API_KEYS or OPENROUTER_API_KEY_1.")),
         w)
    /\ w_requests (snd (request_with_rotation payload [] max_retries_per_key
                                              backoff_seconds w)) = w_requests w
    /\ get_metrics (snd (request_with_rotation payload [] max_retries_per_key
                                               backoff_seconds w)) = get_metrics w.
Proof. intros. repeat split. Qed.



(** C5, as stated, fails: the first call sends two requests upstream (the
    first key is refused, the second is served), and the second call
    returns the very same dictionary, which has no [cached] field. *)
Lemma cache_idempotence_counterexample :
  let call := generate_response unavailable unavailable gemini_direct
                                (u "hello") None (7 # 10) in
  let w := fresh_world two_keys first_key_refused in
  let w1 := snd (call w) in
  length (w_requests w1) = 2%nat
  /\ w_requests (snd (call (later 1000 w1))) = w_requests w1
  /\ fst (call (later 1000 w1)) = fst (call w)
  /\ exists d, fst (call w) = Return (JDict d) /\ dict_get d (u "cached") = None.
Proof.
  vm_compute. split; [reflexivity|]. split; [reflexivity|]. split; [reflexivity|].
  eexists. split; reflexivity.
Qed.

Lemma cached_response_is_shared_across_temperatures_witness :
  cached_fresh (generate_cache_key (u "hello") None (classify_task (u "hello") None))
               served_response (snd served_once)
  /\ generate_response unavailable unavailable gemini_direct (u "hello") None (2 # 10)
                       (later 1000 (snd served_once))
     = (Return served_response, later 1000 (snd served_once)).
Proof.
  apply (cached_response_is_shared_across_temperatures
           unavailable unavailable gemini_direct (u "hello") None (7 # 10) (2 # 10)
           (fresh_world one_key serving) (snd served_once) served_response 1000).
  - vm_compute. reflexivity.
  - vm_compute. discriminate.
  - vm_compute. reflexivity.
  - intros e He. vm_compute in He. injection He as <-. vm_compute. reflexivity.
Defined.

Lemma repeated_call_is_answered_without_upstream_witness :
  exists w2,
    generate_response unavailable unavailable gemini_direct (u "hello") None (7 # 10)
                      (later 1000 (snd served_once))
      = (Return served_response, w2)
    /\ w_requests w2 = w_requests (snd served_once)
    /\ w_metrics w2 = w_metrics (snd served_once).
Proof.
  apply (repeated_call_is_answered_without_upstream
           unavailable unavailable gemini_direct (u "hello") None (7 # 10)
           (fresh_world one_key serving) (snd served_once) served_response 1000).
  - vm_compute. reflexivity.
  - vm_compute. discriminate.
  - vm_compute. reflexivity.
  - intros e He. vm_compute in He. injection He as <-. vm_compute. reflexivity.
Defined.

Lemma fallback_tries_second_model_only_after_429_witness :
  (let w := fresh_world one_key a_throttled in
   let w1 := snd (request_with_rotation (payload_for [] (u "model-a")) [u "k1"] 1 5 w) in
   exists rB w2 sent,
     request_with_rotation (payload_for [] (u "model-b")) [u "k1"] 1 5 w1 = (rB, w2)
     /\ w_requests w2 = w_requests w1 ++ sent
     /\ sent <> []
     /\ Forall (carries (payload_for [] (u "model-b"))) sent
     /\ try_models_with_fallback [u "model-a"; u "model-b"] [] [u "k1"] w
        = (after_second rB, w2))
  /\ (let w := fresh_world one_key a_down in
      try_models_with_fallback [u "model-a"; u "model-b"] [] [u "k1"] w
      = request_with_rotation (payload_for [] (u "model-a")) [u "k1"] 1 5 w).
Proof.
  split.
  - intros w w1.
    set (e := match fst (request_with_rotation (payload_for [] (u "model-a"))
                                               [u "k1"] 1 5 w) with
              | Raise e => e
              | Return _ => RuntimeError []
              end).
    assert (HA : request_with_rotation (payload_for [] (u "model-a")) [u "k1"] 1 5 w
                 = (Raise e, w1)) by (vm_compute; reflexivity).
    assert (C : str_in (u "429") (exn_str e) = true) by (vm_compute; reflexivity).
    pose proof (fallback_tries_second_model_only_after_429
                  (u "model-a") (u "model-b") [] [u "k1"] w w1 e HA) as H.
    rewrite C in H. exact H.
  - intros w.
    set (e := match fst (request_with_rotation (payload_for [] (u "model-a"))
                                               [u "k1"] 1 5 w) with
              | Raise e => e
              | Return _ => RuntimeError []
              end).
    set (w1 := snd (request_with_rotation (payload_for [] (u "model-a"))
                                          [u "k1"] 1 5 w)).
    assert (HA : request_with_rotation (payload_for [] (u "model-a")) [u "k1"] 1 5 w
                 = (Raise e, w1)) by (vm_compute; reflexivity).
    assert (C : str_in (u "429") (exn_str e) = false) by (vm_compute; reflexivity).
    pose proof (fallback_tries_second_model_only_after_429
                  (u "model-a") (u "model-b") [] [u "k1"] w w1 e HA) as H.
    rewrite C in H. rewrite H, HA. reflexivity.
Defined.


(** ** The normalizer returns text *)

Lemma or_else_truthy o d : json_truthy d = true -> json_truthy (or_else o d) = true.
Proof.
  intros H. unfold or_else. destruct o as [x|]; [|exact H].
  destruct (json_truthy x) eqn:E; [exact E|exact H].
Qed.

Lemma clean_markdown_formatting_value_str x y :
  json_truthy x = true -> clean_markdown_formatting_value x = Return y ->
  exists s, y = JStr s.
Proof.
  unfold clean_markdown_formatting_value. intros ->. cbn [negb].
  destruct x; try discriminate. intros H. injection H as <-. eauto.
Qed.

(** Whatever the [try] block of [extract_assistant_text] returns is a
    string. *)
Lemma extract_assistant_text_body_str result x :
  extract_assistant_text_body result = Return x -> exists s, x = JStr s.
Proof.
  unfold extract_assistant_text_body, bind.
  destruct (py_get result (u "choices")) as [c|]; [|discriminate].
  destruct (negb (json_truthy (or_else c (JList [])))).
  { intros H. injection H as <-. eauto. }
  destruct (py_first _) as [first|]; [|discriminate].
  destruct (py_get first _) as [m|]; [|discriminate].
  destruct (py_get _ (u "content")) as [content|]; [|discriminate].
  destruct content as [[| | | | |l|]|];
    try (apply clean_markdown_formatting_value_str; apply or_else_truthy; reflexivity).
  destruct (join_items 0 _) as [parts|]; [|discriminate].
  apply clean_markdown_formatting_value_str.
  destruct (truthy (join [NL] parts)) eqn:E; [exact E|reflexivity].
Qed.

(** ** The Gemini loop only tries the snapshot *)

Lemma discover_sends api_key st w r w' :
  Gemini.discover api_key st w = (r, w') ->
  w_requests w' = w_requests w
  \/ w_requests w' = w_requests w ++ [Gemini.listing_request api_key].
Proof.
  unfold Gemini.discover.
  set (fresh := match Gemini.cache st with Some (t, _) => _ | None => true end).
  destruct fresh.
  - unfold send.
    destruct (result _) as [e|resp]; cbn [fst snd].
    + destruct (Gemini.first_preferred _ _) as [[pick|]|e1].
      * destruct (json_truthy pick);
          [destruct (Gemini.last_segment pick) as [short|e2];
             [destruct (negb _)|]|];
          intros H; injection H as _ <-; right; reflexivity.
      * intros H; injection H as _ <-; right; reflexivity.
      * intros H; injection H as _ <-; right; reflexivity.
    + destruct (status_code resp =? 200);
        [destruct (json_value resp) as [listing|];
           [destruct (Gemini.model_names listing) as [model_list|e0]|]|];
        (destruct (Gemini.first_preferred _ _) as [[pick|]|e1];
         [destruct (json_truthy pick);
            [destruct (Gemini.last_segment pick) as [short|e2];
               [destruct (negb _)|]|]| |]);
        intros H; injection H as _ <-; right; reflexivity.
  - destruct (Gemini.first_preferred _ _) as [[pick|]|e1];
      [destruct (json_truthy pick);
         [destruct (Gemini.last_segment pick) as [short|e2];
            [destruct (negb _)|]|]| |];
      intros H; injection H as _ <-; left; reflexivity.
Qed.

(** Every request the loop sends is the model listing or a generation
    request for a member of the snapshot it iterates over: a candidate
    appended during the loop is not among them unless it was already in
    the snapshot. *)
Lemma candidate_loop_sends api_key task_type payload :
  forall snapshot st w r st' w',
    Gemini.candidate_loop api_key task_type payload snapshot st w = (r, st', w') ->
    exists sent,
      w_requests w' = w_requests w ++ sent
      /\ Forall (fun rq =>
                   rq = Gemini.listing_request api_key
                   \/ exists c, In c snapshot
                                /\ rq = Gemini.generate_request c api_key payload) sent.
Proof.
  induction snapshot as [|candidate rest IH]; intros st w r st' w' H.
  - simpl in H. injection H as _ _ <-. exists []. rewrite app_nil_r. auto.
  - cbn [Gemini.candidate_loop] in H. unfold send in H.
    set (rq0 := Gemini.generate_request candidate api_key payload) in *.
    assert (Hrq0 : rq0 = Gemini.listing_request api_key
                   \/ exists c, In c (candidate :: rest)
                                /\ rq0 = Gemini.generate_request c api_key payload)
      by (right; exists candidate; split; [left; reflexivity|reflexivity]).
    assert (Weak : forall sent,
               Forall (fun rq => rq = Gemini.listing_request api_key
                                 \/ exists c, In c rest
                                              /\ rq = Gemini.generate_request c api_key payload)
                      sent ->
               Forall (fun rq => rq = Gemini.listing_request api_key
                                 \/ exists c, In c (candidate :: rest)
                                              /\ rq = Gemini.generate_request c api_key payload)
                      sent).
    { intros sent F. eapply Forall_impl; [exact F|].
      intros rq [E|[c [Hc E]]]; [left; exact E|right; exists c; split; [right; exact Hc|exact E]]. }
    destruct (result _) as [e|resp].
    + apply IH in H as [sent [Hs F]]. cbn [w_requests set_requests] in Hs.
      exists (rq0 :: sent). rewrite Hs, <- app_assoc. split; [reflexivity|].
      constructor; [exact Hrq0|apply Weak, F].
    + cbv zeta in H. destruct (status_code resp =? 200).
      * destruct (json_value resp); injection H as _ _ <-;
          exists [rq0]; (split; [reflexivity|constructor; [exact Hrq0|constructor]]).
      * destruct (status_code resp =? 404).
        -- destruct (Gemini.discover _ _ _) as [[st1|e1] w1] eqn:D.
           ++ apply IH in H as [sent [Hs F]].
              apply discover_sends in D. cbn [w_requests set_requests] in D.
              destruct D as [D|D]; rewrite D in Hs.
              ** exists (rq0 :: sent). rewrite Hs, <- app_assoc. split; [reflexivity|].
                 constructor; [exact Hrq0|apply Weak, F].
              ** exists (rq0 :: Gemini.listing_request api_key :: sent).
                 rewrite Hs, <- !app_assoc. split; [reflexivity|].
                 constructor; [exact Hrq0|].
                 constructor; [left; reflexivity|apply Weak, F].
           ++ injection H as _ _ <-.
              apply discover_sends in D. cbn [w_requests set_requests] in D.
              destruct D as [D|D]; rewrite D.
              ** exists [rq0]. split; [reflexivity|constructor; [exact Hrq0|constructor]].
              ** exists [rq0; Gemini.listing_request api_key].
                 rewrite <- app_assoc. split; [reflexivity|].
                 constructor; [exact Hrq0|]. constructor; [left; reflexivity|constructor].
        -- injection H as _ _ <-.
           exists [rq0]. split; [reflexivity|constructor; [exact Hrq0|constructor]].
Qed.

(** C6 (the code departs from the claim).  The first candidate gets a
    404, the listing is fetched and names [gemini-2.5-pro-exp], which is
    appended to [candidate_models] (the failure message lists it); but
    the loop runs over the snapshot taken before, so the remaining three
    static candidates are tried, no request is ever sent for the appended
    model (which the remote side would have served), and the call fails. *)
Theorem discovered_candidate_is_appended_but_never_attempted :
  let w := fresh_world [ (u "GEMINI_API_KEY", u "key") ] discovered_only in
  let call := Gemini.generate_gemini_response (u "hello") None (7 # 10)
                                              (u "gemini-2.5-flash") false w in
  fst call
    = Raise (GeminiError
               (u "Gemini API failed after trying models=['gemini-2.5-flash', 'gemini-flash-latest', 'gemini-2.5-flash-lite', 'gemini-2.0-flash', 'gemini-2.5-pro-exp'] last_error=HTTP 404 model not found. Set GEMINI_MODEL or GEMINI_PREFERRED_FAMILY to override."))
  /\ List.map rq_method (w_requests (snd call))
     = [u "POST"; u "GET"; u "POST"; u "POST"; u "POST"]
  /\ forallb (fun rq => negb (str_in (u "gemini-2.5-pro-exp") (rq_url rq)))
             (w_requests (snd call)) = true
  /\ (exists resp,
        result (discovered_only 5
                  (Gemini.generate_request
                     (u "gemini-2.5-pro-exp") (u "key")
                     (Gemini.gemini_payload [ JDict [ (u "text", JStr (u "hello")) ] ]
                                            (7 # 10))))
        = Response resp
        /\ status_code resp = 200 /\ json_value resp <> None).
Proof.
  vm_compute. split; [reflexivity|]. split; [reflexivity|]. split; [reflexivity|].
  eexists. split; [reflexivity|]. split; [reflexivity|discriminate].
Qed.

(** C7 (the code departs from the claim).  A missing or empty [choices]
    list is mapped to a placeholder, but a completion whose content is a
    single space passes the emptiness test, is cleaned to nothing, and
    [extract_assistant_text] returns the empty string. *)
Theorem extract_assistant_text_can_be_empty :
  extract_assistant_text (JDict []) = u "(no choices in response)"
  /\ extract_assistant_text (JDict [ (u "choices", JList []) ])
     = u "(no choices in response)"
  /\ extract_assistant_text (completion (JStr [])) = u "(empty content)"
  /\ extract_assistant_text (completion (JStr (u " "))) = [].
Proof. vm_compute. repeat split. Qed.

(** C8 (the code departs from the claim).  The bold markers outside the
    fence are stripped, but the placeholder that stands for the fenced
    block is itself rewritten by the underscore-italic substitution, so it
    is never replaced back: the fence and its interior are gone from the
    result. *)
Theorem fenced_block_is_lost :
  clean_markdown_formatting (u "**a** ```**b**```") = u "a __CODEBLOCK0__"
  /\ str_in (u "**b**") (clean_markdown_formatting (u "**a** ```**b**```")) = false
  /\ Re.sub (re_emphasis UNDERSCORE 1) (fun g1 => g1) (code_block_placeholder 0)
     = u "__CODEBLOCK0__".
Proof. vm_compute. repeat split. Qed.

(** ** The response cache *)

(** X1.  A response stored with [cache_response] is returned by
    [get_cached_response] as long as less than the TTL has passed, and the
    lookup changes nothing. *)
Theorem cached_response_is_returned_within_ttl :
  forall (key : str) (r : json) (w : world) (d : Z),
    d < CACHE_TTL ->
    get_cached_response key (later d (cache_response key r w))
      = (Some r, later d (cache_response key r w)).
Proof.
  intros key r w d Hd. unfold get_cached_response.
  cbn [later set_now w_response_cache cache_response set_cache w_now].
  rewrite lookup_insert_eq. cbn [timestamp response].
  replace (w_now w + d - w_now w) with d by lia.
  apply Z.ltb_lt in Hd. rewrite Hd. reflexivity.
Qed.

Lemma cached_response_is_returned_within_ttl_witness :
  get_cached_response (u "k")
    (later 299999 (cache_response (u "k") (JStr (u "v")) (fresh_world [] serving)))
  = (Some (JStr (u "v")),
     later 299999 (cache_response (u "k") (JStr (u "v")) (fresh_world [] serving))).
Proof.
  apply (cached_response_is_returned_within_ttl
           (u "k") (JStr (u "v")) (fresh_world [] serving) 299999).
  reflexivity.
Defined.

(** X2.  An entry as old as the TTL or older is not returned:
    [get_cached_response] answers [None], removes that entry, and leaves
    every other entry, the clock, the metrics and the request log as they
    were. *)
Theorem stale_entry_is_evicted_on_lookup :
  forall (key : str) (e : cache_entry) (w : world),
    w_response_cache w !! key = Some e ->
    CACHE_TTL <= w_now w - timestamp e ->
    exists w',
      get_cached_response key w = (None, w')
      /\ w_response_cache w' !! key = None
      /\ (forall other, other <> key ->
            w_response_cache w' !! other = w_response_cache w !! other)
      /\ w_now w' = w_now w /\ w_metrics w' = w_metrics w
      /\ w_requests w' = w_requests w.
Proof.
  intros key e w He Hold. unfold get_cached_response. rewrite He.
  assert (E : (w_now w - timestamp e <? CACHE_TTL) = false) by (apply Z.ltb_ge; lia).
  rewrite E. eexists. split; [reflexivity|]. cbn [w_response_cache set_cache].
  split; [apply lookup_delete_eq|]. split; [|auto].
  intros other Hne. apply lookup_delete_ne. congruence.
Qed.

Lemma stale_entry_is_evicted_on_lookup_witness :
  exists w',
    get_cached_response (u "k")
      (later 300000 (cache_response (u "k") (JStr (u "v")) (fresh_world [] serving)))
    = (None, w')
    /\ w_response_cache w' !! u "k" = None
    /\ (forall other, other <> u "k" ->
          w_response_cache w' !! other
          = w_response_cache
              (later 300000 (cache_response (u "k") (JStr (u "v"))
                                            (fresh_world [] serving))) !! other)
    /\ w_now w' = 300000 /\ w_metrics w' = no_metrics /\ w_requests w' = [].
Proof.
  apply (stale_entry_is_evicted_on_lookup
           (u "k") {| response := JStr (u "v"); timestamp := 0 |}
           (later 300000 (cache_response (u "k") (JStr (u "v")) (fresh_world [] serving)))).
  - vm_compute. reflexivity.
  - vm_compute. discriminate.
Defined.

(** The text of a cache key before hashing. *)
Lemma or_empty_snoc (q : str) (c : char) : or_empty (Some (q ++ [c])) = q ++ [c].
Proof. destruct q; reflexivity. Qed.

(** X4 (first half).  The cache key runs the prompt and the image
    reference together with a [|] between them, so moving a [|] from the
    prompt to the end of the image reference gives the same key. *)
Lemma cache_key_runs_prompt_and_image_together (p q task_type : str) :
  generate_cache_key (p ++ u "|" ++ q) None task_type
  = generate_cache_key p (Some (q ++ u "|")) task_type.
Proof.
  unfold generate_cache_key. f_equal. f_equal.
  change (u "|") with [124%N]. rewrite or_empty_snoc. cbn [or_empty].
  rewrite <- !app_assoc. reflexivity.
Qed.

Section CacheExtras.

Variable generate_research_response :
  str -> option str -> Q -> world -> outcome json * world.
Variable generate_local_response :
  str -> option str -> Q -> world -> outcome json * world.
Variable generate_gemini_response :
  str -> option str -> Q -> world -> outcome json * world.

Local Abbreviation generate_response' :=
  (generate_response generate_research_response generate_local_response
                     generate_gemini_response).

(** X3.  When the entry under the request's key is as old as the TTL or
    older, [generate_response] behaves exactly as if the entry were not
    there: the stale response is not returned and the request is
    dispatched afresh. *)
Theorem stale_entry_is_ignored_by_generate_response :
  forall (prompt : str) (image_url : option str) (temperature : Q)
         (e : cache_entry) (w : world),
    let cache_key :=
      generate_cache_key prompt image_url (classify_task prompt image_url) in
    w_response_cache w !! cache_key = Some e ->
    CACHE_TTL <= w_now w - timestamp e ->
    generate_response' prompt image_url temperature w
    = generate_response' prompt image_url temperature
        (set_cache (delete cache_key (w_response_cache w)) w).
Proof.
  intros prompt image_url temperature e w cache_key He Hold.
  unfold generate_response. cbv zeta. fold cache_key.
  unfold get_cached_response. rewrite He.
  assert (E : (w_now w - timestamp e <? CACHE_TTL) = false) by (apply Z.ltb_ge; lia).
  rewrite E. cbn [w_response_cache set_cache]. rewrite lookup_delete_eq.
  reflexivity.
Qed.

(** X4.  Two different requests can share a cache entry: after a call for
    the prompt [p|q] without image, a call for the prompt [p] with the
    image reference [q|] that falls in the same task category is answered
    from the first call's entry. *)
Theorem different_requests_can_share_a_cache_entry :
  forall (p q : str) (t1 t2 : Q) (w w1 : world) (r : json) (d : Z),
    let cache_key :=
      generate_cache_key (p ++ u "|" ++ q) None
                         (classify_task (p ++ u "|" ++ q) None) in
    classify_task p (Some (q ++ u "|")) = classify_task (p ++ u "|" ++ q) None ->
    generate_response' (p ++ u "|" ++ q) None t1 w = (Return r, w1) ->
    raw_of r <> Some rate_limited_marker ->
    json_truthy r = true ->
    (forall e, w_response_cache w1 !! cache_key = Some e ->
               w_now w1 + d - timestamp e < CACHE_TTL) ->
    generate_response' p (Some (q ++ u "|")) t2 (later d w1) = (Return r, later d w1).
Proof.
  intros p q t1 t2 w w1 r d cache_key Hc H1 Hraw Hj Hd.
  apply generate_response_hit; [|exact Hj].
  rewrite Hc, <- cache_key_runs_prompt_and_image_together.
  apply later_cached_fresh; [exact Hd|].
  eapply generate_response_stores; eauto.
Qed.

End CacheExtras.

Lemma stale_entry_is_ignored_by_generate_response_witness :
  generate_response unavailable unavailable gemini_direct (u "hello") None (7 # 10)
                    (later 300000 (snd served_once))
  = generate_response unavailable unavailable gemini_direct (u "hello") None (7 # 10)
      (set_cache
         (delete (generate_cache_key (u "hello") None (classify_task (u "hello") None))
                 (w_response_cache (later 300000 (snd served_once))))
         (later 300000 (snd served_once))).
Proof.
  apply (stale_entry_is_ignored_by_generate_response
           unavailable unavailable gemini_direct (u "hello") None (7 # 10)
           {| response := served_response; timestamp := 100 |}
           (later 300000 (snd served_once))).
  - vm_compute. reflexivity.
  - vm_compute. discriminate.
Defined.

Lemma different_requests_can_share_a_cache_entry_witness :
  generate_response unavailable unavailable gemini_direct
                    (u "code") (Some (u "a|")) (2 # 10) (later 1000 (snd piped_once))
  = (Return piped_response, later 1000 (snd piped_once)).
Proof.
  apply (different_requests_can_share_a_cache_entry
           unavailable unavailable gemini_direct (u "code") (u "a")
           (7 # 10) (2 # 10) (fresh_world one_key serving) (snd piped_once)
           piped_response 1000).
  - vm_compute. reflexivity.
  - vm_compute. reflexivity.
  - vm_compute. discriminate.
  - vm_compute. reflexivity.
  - intros e He. vm_compute in He. injection He as <-. vm_compute. reflexivity.
Defined.

(** ** Credentials *)

Lemma str_eqb_eq (a b : str) : str_eqb a b = true <-> a = b.
Proof.
  revert b; induction a as [|x a IH]; destruct b as [|y b]; simpl;
    try (split; [discriminate|discriminate]); [split; reflexivity|].
  rewrite andb_true_iff, N.eqb_eq, IH. split.
  - intros [-> ->]. reflexivity.
  - intros H. injection H as -> ->. auto.
Qed.

Lemma seen_before_In (seen : list str) (k : str) :
  seen_before seen k = true <-> In k seen.
Proof.
  unfold seen_before. rewrite existsb_exists. split.
  - intros [x [Hx E]]. apply str_eqb_eq in E. subst x. exact Hx.
  - intros H. exists k. split; [exact H|]. apply str_eqb_eq. reflexivity.
Qed.

Lemma unique_keys_In (keys seen : list str) (k : str) :
  In k (unique_keys keys seen) <-> In k keys /\ k <> [] /\ ~ In k seen.
Proof.
  revert seen; induction keys as [|x keys IH]; intros seen; simpl.
  - tauto.
  - destruct (truthy x && negb (seen_before seen x)) eqn:E.
    + apply andb_true_iff in E as [Ex En]. apply negb_true_iff in En.
      assert (Hx : x <> []) by (destruct x; [discriminate|discriminate]).
      assert (Hs : ~ In x seen)
        by (intros H; apply seen_before_In in H; congruence).
      simpl. rewrite IH. simpl. split.
      * intros [<- | [H1 [H2 H3]]]; [tauto|]. split; [tauto|]. split; [tauto|]. tauto.
      * intros [[<- | H1] [H2 H3]]; [tauto|].
        destruct (decide (x = k)) as [->|Hne]; [tauto|].
        right. split; [exact H1|]. split; [exact H2|]. intros [H|H]; tauto.
    + rewrite IH. split.
      * intros [H1 [H2 H3]]. tauto.
      * intros [[<- | H1] [H2 H3]]; [|tauto].
        exfalso. apply andb_false_iff in E as [E|E].
        -- destruct x; [congruence|discriminate].
        -- apply negb_false_iff, seen_before_In in E. tauto.
Qed.

Lemma unique_keys_NoDup (keys seen : list str) : NoDup (unique_keys keys seen).
Proof.
  revert seen; induction keys as [|x keys IH]; intros seen; simpl; [constructor|].
  destruct (truthy x && negb (seen_before seen x)); [|apply IH].
  apply NoDup_cons. split; [|apply IH].
  intros H. apply list_elem_of_In, unique_keys_In in H as [_ [_ H]].
  apply H. left. reflexivity.
Qed.

(** Trimmed text: empty, or with no white space at either end. *)
Lemma lstrip_head (s : str) :
  match lstrip s with [] => True | c :: _ => isspace c = false end.
Proof.
  induction s as [|c s IH]; simpl; [exact I|].
  destruct (isspace c) eqn:E; [exact IH|exact E].
Qed.

Lemma lstrip_fixed (s : str) :
  match s with [] => True | c :: _ => isspace c = false end -> lstrip s = s.
Proof. destruct s as [|c s]; simpl; [reflexivity|]. intros ->. reflexivity. Qed.

Lemma rstrip_idem (s : str) : rstrip (rstrip s) = rstrip s.
Proof.
  induction s as [|c s IH]; simpl; [reflexivity|].
  destruct (rstrip s) as [|d r] eqn:E.
  - destruct (isspace c) eqn:Ec; simpl; [reflexivity|]. rewrite Ec. reflexivity.
  - simpl. simpl in IH. rewrite IH. reflexivity.
Qed.

Lemma rstrip_head (s : str) :
  match s with [] => True | c :: _ => isspace c = false end ->
  match rstrip s with [] => True | c :: _ => isspace c = false end.
Proof.
  destruct s as [|c s]; simpl; [auto|]. intros Hc.
  destruct (rstrip s); [rewrite Hc|]; exact Hc.
Qed.

Lemma strip_idem (s : str) : strip (strip s) = strip s.
Proof.
  unfold strip. rewrite (lstrip_fixed (rstrip (lstrip s))).
  - apply rstrip_idem.
  - apply rstrip_head, lstrip_head.
Qed.

(** X5.  [collect_api_keys] returns each credential once, never an empty
    one, and every credential is trimmed of surrounding white space. *)
Theorem collected_keys_are_distinct_nonempty_and_trimmed :
  forall (w : world),
    NoDup (collect_api_keys w)
    /\ Forall (fun k => k <> [] /\ strip k = k) (collect_api_keys w).
Proof.
  intros w. unfold collect_api_keys. split; [apply unique_keys_NoDup|].
  apply Forall_forall. intros k Hk.
  apply list_elem_of_In, unique_keys_In in Hk as [Hin [Hne _]].
  split; [exact Hne|].
  apply in_app_or in Hin as [Hin|Hin]; [|apply in_app_or in Hin as [Hin|Hin]].
  - destruct (opt_truthy _); [|destruct Hin].
    unfold csv_keys in Hin. apply filter_In in Hin as [Hin _].
    apply in_map_iff in Hin as [x [<- _]]. apply strip_idem.
  - revert Hin. generalize (S (size (w_env w))) 1%nat.
    intros fuel; induction fuel as [|fuel IH]; intros idx; simpl; [tauto|].
    destruct (getenv w _) as [[|c v]|]; simpl; try tauto.
    intros [<- | H]; [apply strip_idem|eapply IH; eauto].
  - unfold legacy_keys in Hin. apply in_flat_map in Hin as [x [_ Hin]].
    destruct (getenv w x) as [[|c v]|]; simpl in Hin; try tauto.
    destruct Hin as [<- | []]. apply strip_idem.
Qed.

Lemma unique_keys_prefix (a b seen : list str) :
  NoDup a -> Forall (fun k => k <> [] /\ ~ In k seen) a ->
  unique_keys (a ++ b) seen = a ++ unique_keys b (rev a ++ seen).
Proof.
  revert seen; induction a as [|x a IH]; intros seen ND F; simpl; [reflexivity|].
  apply NoDup_cons in ND as [Hx ND]. inversion F as [|? ? [Hne Hs] F']; subst.
  assert (E1 : truthy x = true) by (destruct x; [congruence|reflexivity]).
  assert (E2 : seen_before seen x = false).
  { apply not_true_iff_false. intros H. apply seen_before_In in H. tauto. }
  rewrite E1, E2. simpl. f_equal. rewrite IH.
  - rewrite <- app_assoc. reflexivity.
  - exact ND.
  - apply Forall_forall. intros k Hk. rewrite Forall_forall in F'.
    apply list_elem_of_In in Hk.
    destruct (F' k ltac:(apply list_elem_of_In; exact Hk)) as [H1 H2]. split; [exact H1|].
    intros [<- | H]; [|tauto]. apply Hx. apply list_elem_of_In. exact Hk.
Qed.

(** X6.  The comma-separated list comes first: when the entries of
    [OPENROUTER_API_KEYS] (trimmed, blanks dropped) are distinct,
    [collect_api_keys] starts with exactly those entries in their order,
    whatever the indexed and legacy variables add after them. *)
Theorem csv_keys_come_first :
  forall (w : world) (csv : str),
    getenv w (u "OPENROUTER_API_KEYS") = Some csv ->
    NoDup (csv_keys csv) ->
    exists rest, collect_api_keys w = csv_keys csv ++ rest.
Proof.
  intros w csv Hcsv ND. unfold collect_api_keys. rewrite Hcsv.
  assert (E : (if opt_truthy (Some csv) then csv_keys (or_empty (Some csv)) else [])
              = csv_keys csv) by (destruct csv; reflexivity).
  rewrite E, unique_keys_prefix.
  - eexists. reflexivity.
  - exact ND.
  - apply Forall_forall. intros k Hk. apply list_elem_of_In in Hk.
    unfold csv_keys in Hk. apply filter_In in Hk as [_ Hk].
    split; [destruct k; [discriminate|discriminate]|tauto].
Qed.

Lemma csv_keys_come_first_witness :
  exists rest,
    collect_api_keys
      (fresh_world [ (u "OPENROUTER_API_KEYS", u " k1 ,,k2"); (u "grok_api_key", u "k1");
                     (u "OPENROUTER_API_KEY_1", u "k3") ] serving)
    = csv_keys (u " k1 ,,k2") ++ rest.
Proof.
  apply (csv_keys_come_first
           (fresh_world [ (u "OPENROUTER_API_KEYS", u " k1 ,,k2"); (u "grok_api_key", u "k1");
                          (u "OPENROUTER_API_KEY_1", u "k3") ] serving)
           (u " k1 ,,k2")).
  - vm_compute. reflexivity.
  - vm_compute. repeat constructor; intros H; inversion H; subst;
      try match goal with H' : _ ∈ [] |- _ => inversion H' end;
      try match goal with H' : _ ∈ [_] |- _ => inversion H'; subst end;
      try match goal with H' : _ ∈ [] |- _ => inversion H' end.
Defined.
Lemma indexed_keys_run w : forall n idx fuel,
  (n < fuel)%nat ->
  (forall i, (idx <= i < idx + n)%nat -> opt_truthy (getenv w (indexed_name i)) = true) ->
  opt_truthy (getenv w (indexed_name (idx + n))) = false ->
  indexed_keys w fuel idx
  = List.map (fun i => strip (or_empty (getenv w (indexed_name i)))) (seq idx n).
Proof.
  induction n as [|n IH]; intros idx fuel Hf Hset Hgap.
  - destruct fuel as [|fuel]; [lia|]. rewrite Nat.add_0_r in Hgap.
    cbn [indexed_keys seq List.map]. fold (indexed_name idx).
    destruct (getenv w (indexed_name idx)) as [[|c v]|] eqn:E0;
      [reflexivity| |reflexivity].
    cbn in Hgap. discriminate Hgap.
  - destruct fuel as [|fuel]; [lia|].
    cbn [indexed_keys seq List.map]. fold (indexed_name idx).
    pose proof (Hset idx ltac:(lia)) as H0.
    destruct (getenv w (indexed_name idx)) as [[|c v]|] eqn:E0;
      [cbn in H0; discriminate H0| |cbn in H0; discriminate H0].
    cbn [or_empty]. f_equal. apply IH; [lia| |].
    + intros i Hi. apply Hset. lia.
    + replace (S idx + n)%nat with (idx + S n)%nat by lia. exact Hgap.
Qed.

(** X7.  The indexed credentials are read up to the first gap: when
    [OPENROUTER_API_KEY_1] to [_n] are set and [_(n+1)] is unset or empty,
    the loop contributes exactly the (trimmed) values of the first [n]
    variables, in order; variables beyond the gap are never read. *)
Theorem indexed_keys_stop_at_first_gap :
  forall (w : world) (n : nat),
    (forall i, (1 <= i <= n)%nat -> opt_truthy (getenv w (indexed_name i)) = true) ->
    opt_truthy (getenv w (indexed_name (S n))) = false ->
    indexed_keys w (S (size (w_env w))) 1
    = List.map (fun i => strip (or_empty (getenv w (indexed_name i)))) (seq 1 n).
Proof.
  intros w n Hset Hgap.
  set (L := List.map (fun i => strip (or_empty (getenv w (indexed_name i)))) (seq 1 n)).
  assert (E : indexed_keys w (S n) 1 = L).
  { apply indexed_keys_run; [lia| |exact Hgap]. intros i Hi. apply Hset. lia. }
  assert (Hlen : (length (indexed_keys w (S n) 1) < S n)%nat).
  { rewrite E. unfold L. rewrite length_map, length_seq. lia. }
  destruct (Nat.le_gt_cases (S n) (S (size (w_env w)))) as [Hle|Hgt].
  - replace (S (size (w_env w))) with (S n + (S (size (w_env w)) - S n))%nat by lia.
    rewrite indexed_keys_stable; [exact E|exact Hlen].
  - rewrite <- (indexed_keys_enough_fuel w (S n - S (size (w_env w)))).
    replace (S (size (w_env w)) + (S n - S (size (w_env w))))%nat with (S n) by lia.
    exact E.
Qed.

Lemma indexed_keys_stop_at_first_gap_witness :
  let w := fresh_world [ (u "OPENROUTER_API_KEY_1", u "a"); (u "OPENROUTER_API_KEY_2", u " b");
                         (u "OPENROUTER_API_KEY_4", u "d") ] serving in
  indexed_keys w (S (size (w_env w))) 1
  = List.map (fun i => strip (or_empty (getenv w (indexed_name i)))) (seq 1 2).
Proof.
  intros w. apply (indexed_keys_stop_at_first_gap w 2).
  - intros i Hi. assert (H : i = 1%nat \/ i = 2%nat) by lia.
    destruct H as [-> | ->]; vm_compute; reflexivity.
  - vm_compute. reflexivity.
Defined.

(** ** Accounting of the key rotation *)

Lemma accounted_step w w1 w' rq sent won :
  w_requests w1 = w_requests w ++ [rq] ->
  attempts (w_metrics w1) = attempts (w_metrics w) + 1 ->
  successful_calls (w_metrics w1) = successful_calls (w_metrics w) ->
  w_response_cache w1 = w_response_cache w ->
  w_env w1 = w_env w -> w_upstream w1 = w_upstream w ->
  accounted w1 w' sent won ->
  accounted w w' (rq :: sent) won.
Proof.
  intros H1 H2 H3 H4 H5 H6 (A1 & A2 & A3 & A4 & A5 & A6).
  unfold accounted. rewrite A1, A2, A3, A4, A5, A6, H1, H2, H3, H4, H5, H6.
  rewrite <- app_assoc. cbn [length]. repeat split; try reflexivity. lia.
Qed.

Lemma try_key_accounting headers payload key_index key backoff :
  forall remaining attempt st w r st' w',
    try_key headers payload key_index key backoff remaining attempt st w = (r, st', w') ->
    exists sent,
      accounted w w' sent (opt_returned r)
      /\ (length sent <= remaining)%nat
      /\ errors_total (w_metrics w') = errors_total (w_metrics w)
      /\ Forall (fun rq => rq = openrouter_request headers key payload) sent.
Proof.
  induction remaining as [|remaining IH]; intros attempt st w r st' w' H.
  - simpl in H. injection H as <- <- <-. exists [].
    unfold accounted. rewrite app_nil_r. cbn. repeat split; auto; lia.
  - cbn [try_key] in H. unfold send in H.
    set (rq := openrouter_request headers key payload) in *.
    assert (One : forall (w1 : world) (won : bool),
               w_requests w1 = w_requests w ++ [rq] ->
               attempts (w_metrics w1) = attempts (w_metrics w) + 1 ->
               successful_calls (w_metrics w1)
               = successful_calls (w_metrics w) + (if won then 1 else 0) ->
               errors_total (w_metrics w1) = errors_total (w_metrics w) ->
               w_response_cache w1 = w_response_cache w ->
               w_env w1 = w_env w -> w_upstream w1 = w_upstream w ->
               exists sent,
                 accounted w w1 sent won
                 /\ (length sent <= S remaining)%nat
                 /\ errors_total (w_metrics w1) = errors_total (w_metrics w)
                 /\ Forall (fun x => x = rq) sent).
    { intros w1 won H1 H2 H3 H4 H5 H6 H7. exists [rq].
      unfold accounted. cbn [length]. repeat split; auto; try lia. }
    assert (More : forall st1 w1,
               w_requests w1 = w_requests w ++ [rq] ->
               attempts (w_metrics w1) = attempts (w_metrics w) + 1 ->
               successful_calls (w_metrics w1) = successful_calls (w_metrics w) ->
               errors_total (w_metrics w1) = errors_total (w_metrics w) ->
               w_response_cache w1 = w_response_cache w ->
               w_env w1 = w_env w -> w_upstream w1 = w_upstream w ->
               try_key headers payload key_index key backoff remaining (S attempt) st1 w1
                 = (r, st', w') ->
               exists sent,
                 accounted w w' sent (opt_returned r)
                 /\ (length sent <= S remaining)%nat
                 /\ errors_total (w_metrics w') = errors_total (w_metrics w)
                 /\ Forall (fun x => x = rq) sent).
    { intros st1 w1 H1 H2 H3 H4 H5 H6 H7 E.
      destruct (IH _ _ _ _ _ _ E) as [sent [A [L [Er F]]]].
      exists (rq :: sent). split; [eapply accounted_step; eauto|].
      cbn [length]. split; [lia|]. split; [congruence|]. constructor; auto. }
    destruct (result _) as [e|resp].
    + eapply More; [| | | | | | |exact H]; reflexivity.
    + cbv zeta in H. destruct (status_code resp =? 200).
      * destruct (json_value resp) as [data|]; injection H as <- <- <-.
        -- eapply (One _ true); cbn; try reflexivity.
        -- eapply (One _ false); cbn; try reflexivity. lia.
      * destruct ((status_code resp =? 401) || (status_code resp =? 403)).
        -- injection H as <- <- <-. eapply (One _ false); cbn; try reflexivity. lia.
        -- destruct (status_code resp =? 429).
           ++ eapply More; [| | | | | | |exact H]; reflexivity.
           ++ injection H as <- <- <-. eapply (One _ false); cbn; try reflexivity. lia.
Qed.

Lemma accounted_trans w w1 w2 s1 s2 won :
  accounted w w1 s1 false -> accounted w1 w2 s2 won -> accounted w w2 (s1 ++ s2) won.
Proof.
  intros (A1 & A2 & A3 & A4 & A5 & A6) (B1 & B2 & B3 & B4 & B5 & B6).
  unfold accounted. rewrite B1, B2, B3, B4, B5, B6, A1, A2, A3, A4, A5, A6.
  rewrite <- app_assoc, length_app. repeat split; try reflexivity; lia.
Qed.

Lemma rotate_keys_accounting headers payload retries backoff :
  forall api_keys key_index st w r st' w',
    rotate_keys headers payload retries backoff key_index api_keys st w = (r, st', w') ->
    exists sent,
      accounted w w' sent (opt_returned r)
      /\ (length sent <= length api_keys * retries)%nat
      /\ errors_total (w_metrics w') = errors_total (w_metrics w).
Proof.
  induction api_keys as [|key rest IH]; intros key_index st w r st' w' H.
  - simpl in H. injection H as <- <- <-. exists [].
    unfold accounted. rewrite app_nil_r. cbn. repeat split; auto; lia.
  - cbn [rotate_keys] in H.
    destruct (try_key _ _ _ _ _ _ _ _ _) as [[r1 st1] w1] eqn:E1.
    destruct (try_key_accounting _ _ _ _ _ _ _ _ _ _ _ _ E1) as [s1 [A1 [L1 [Er1 _]]]].
    destruct r1 as [r1|].
    + injection H as <- <- <-. exists s1. split; [exact A1|]. cbn [length].
      split; [lia|exact Er1].
    + destruct (IH _ _ _ _ _ _ H) as [s2 [A2 [L2 Er2]]].
      exists (s1 ++ s2). split; [eapply accounted_trans; eauto|].
      rewrite length_app. cbn [length]. split; [lia|congruence].
Qed.

(** X8.  Accounting of [request_with_rotation], whatever the remote side
    answers: [attempts] grows by exactly the number of requests sent, at
    most [len(api_keys) * max_retries_per_key] requests are sent,
    [successful_calls] grows by one exactly when a value is returned,
    [errors_total] grows by at most one and not at all on success, and the
    response cache is not touched. *)
Theorem rotation_accounting :
  forall (payload : list (str * json)) (api_keys : list str)
         (max_retries_per_key : nat) (backoff_seconds : Z) (w : world),
    let r := fst (request_with_rotation payload api_keys max_retries_per_key
                                        backoff_seconds w) in
    let w' := snd (request_with_rotation payload api_keys max_retries_per_key
                                         backoff_seconds w) in
    exists sent,
      w_requests w' = w_requests w ++ sent
      /\ (length sent <= length api_keys * max_retries_per_key)%nat
      /\ attempts (get_metrics w') = attempts (get_metrics w) + Z.of_nat (length sent)
      /\ successful_calls (get_metrics w')
         = successful_calls (get_metrics w) + (if returned r then 1 else 0)
      /\ errors_total (get_metrics w) <= errors_total (get_metrics w')
                                      <= errors_total (get_metrics w) + 1
      /\ (returned r = true -> errors_total (get_metrics w') = errors_total (get_metrics w))
      /\ w_response_cache w' = w_response_cache w.
Proof.
  intros payload api_keys retries backoff w. cbv zeta.
  unfold request_with_rotation, get_metrics. destruct api_keys as [|k ks] eqn:Ek.
  - exists []. cbn. rewrite app_nil_r. repeat split; auto; lia.
  - rewrite <- Ek.
    destruct (rotate_keys _ _ _ _ _ _ _ _) as [[r1 st1] w1] eqn:E1.
    destruct (rotate_keys_accounting _ _ _ _ _ _ _ _ _ _ _ E1)
      as [sent [(A1 & A2 & A3 & A4 & A5 & A6) [L Er]]].
    exists sent. destruct r1 as [[data|e]|]; cbn [fst snd returned opt_returned] in *.
    + repeat split; auto; lia.
    + repeat split; auto; try lia; try discriminate.
    + destruct (_ && _); cbn [fst snd returned];
        cbn [bump_errors set_metrics w_metrics w_requests w_response_cache
             attempts successful_calls errors_total];
        repeat split; auto; try lia; try discriminate.
Qed.

(** ** Single answers of the remote side *)

(** X9.  A 200 response whose body is not JSON ends the rotation at
    once: [RuntimeError("Response not valid JSON (200)")] is raised after
    that one request, the remaining keys and retries are not tried, and
    [errors_total] is not incremented. *)
Theorem malformed_success_is_a_hard_failure :
  forall (payload : list (str * json)) (key : str) (more_keys : list str)
         (retries : nat) (backoff_seconds : Z) (w : world) (resp : http_response),
    result (w_upstream w (length (w_requests w))
              (openrouter_request (base_headers w) key payload)) = Response resp ->
    status_code resp = 200 ->
    json_value resp = None ->
    exists w',
      request_with_rotation payload (key :: more_keys) (S retries) backoff_seconds w
        = (Raise (RuntimeError (u "Response not valid JSON (200)")), w')
      /\ w_requests w'
         = w_requests w ++ [openrouter_request (base_headers w) key payload]
      /\ errors_total (get_metrics w') = errors_total (get_metrics w)
      /\ successful_calls (get_metrics w') = successful_calls (get_metrics w).
Proof.
  intros payload key more_keys retries backoff w resp Hr Hs Hj.
  unfold request_with_rotation. cbn [rotate_keys try_key]. unfold send.
  change (w_upstream (bump_attempts w)) with (w_upstream w).
  change (w_requests (bump_attempts w)) with (w_requests w).
  rewrite Hr. cbv zeta. rewrite Hs, Hj. cbn [Z.eqb Pos.eqb].
  eexists. split; [reflexivity|]. repeat split.
Qed.

Lemma malformed_success_is_a_hard_failure_witness :
  exists w',
    request_with_rotation [] [u "k1"; u "k2"] 2 5
      (fresh_world [] (fun _ _ => answer 200 (u "<html>") None))
      = (Raise (RuntimeError (u "Response not valid JSON (200)")), w')
    /\ w_requests w'
       = w_requests (fresh_world [] (fun _ _ => answer 200 (u "<html>") None))
           ++ [openrouter_request
                 (base_headers (fresh_world [] (fun _ _ => answer 200 (u "<html>") None)))
                 (u "k1") []]
    /\ errors_total (get_metrics w') = 0
    /\ successful_calls (get_metrics w') = 0.
Proof.
  eapply (malformed_success_is_a_hard_failure
            [] (u "k1") [u "k2"] 1 5
            (fresh_world [] (fun _ _ => answer 200 (u "<html>") None))).
  - reflexivity.
  - reflexivity.
  - reflexivity.
Defined.

(** X11.  With a single candidate model the coordinator is transparent:
    it returns or raises exactly what the rotation for that model returns
    or raises (a rate-limit failure included), in the same world. *)
Theorem single_model_fallback_is_transparent :
  forall (model : str) (payload : list (str * json)) (api_keys : list str) (w : world),
    try_models_with_fallback [model] payload api_keys w
    = request_with_rotation (payload_for payload model) api_keys 1 5 w.
Proof.
  intros model payload api_keys w.
  unfold try_models_with_fallback. cbn [length fallback_loop].
  fold (payload_for payload model).
  destruct (request_with_rotation (payload_for payload model) api_keys 1 5 w)
    as [[data|e] w1] eqn:E; [reflexivity|].
  destruct (request_with_rotation_sends _ _ _ _ _ _ _ E) as [_ R].
  rewrite (R e eq_refl). cbn [Nat.ltb Nat.leb]. rewrite andb_false_r. reflexivity.
Qed.
(** ** Rotation past refused keys *)

Lemma rotate_keys_skips_refused headers payload retries backoff good rest data
      (up : nat -> request -> reply) :
  (forall n, exists resp,
      result (up n (openrouter_request headers good payload)) = Response resp
      /\ status_code resp = 200 /\ json_value resp = Some data) ->
  forall bad key_index st w,
    w_upstream w = up ->
    (forall n key, In key bad -> exists resp,
        result (up n (openrouter_request headers key payload)) = Response resp
        /\ (status_code resp = 401 \/ status_code resp = 403)) ->
    exists st' w',
      rotate_keys headers payload (S retries) backoff key_index (bad ++ good :: rest) st w
        = (Some (Return data), st', w')
      /\ w_requests w'
         = w_requests w
             ++ List.map (fun key => openrouter_request headers key payload) (bad ++ [good]).
Proof.
  intros Hgood. induction bad as [|b bad IH]; intros key_index st w Hup Hbad.
  - cbn [app rotate_keys try_key]. unfold send.
    change (w_upstream (bump_attempts w)) with (w_upstream w). rewrite Hup.
    destruct (Hgood (length (w_requests (bump_attempts w)))) as [resp [E [Hs Hj]]].
    rewrite E. cbv zeta. rewrite Hs, Hj. cbn [Z.eqb Pos.eqb].
    eexists _, _. split; reflexivity.
  - cbn [app rotate_keys try_key]. unfold send.
    change (w_upstream (bump_attempts w)) with (w_upstream w). rewrite Hup.
    destruct (Hbad (length (w_requests (bump_attempts w))) b ltac:(left; reflexivity))
      as [resp [E Hs]].
    rewrite E. cbv zeta.
    assert (E200 : (status_code resp =? 200) = false)
      by (destruct Hs as [-> | ->]; reflexivity).
    assert (Eauth : (status_code resp =? 401) || (status_code resp =? 403) = true)
      by (destruct Hs as [-> | ->]; reflexivity).
    rewrite E200, Eauth.
    match goal with |- context [rotate_keys _ _ _ _ (S key_index) _ ?st1 ?w1] =>
      destruct (IH (S key_index) st1 w1) as [st' [w' [E' Hreq]]]
    end.
    + exact Hup.
    + intros n key Hin. apply Hbad. right. exact Hin.
    + rewrite E'. eexists _, _. split; [reflexivity|].
      rewrite Hreq. cbn [w_requests set_requests record_latency set_metrics bump_attempts
                          List.map app].
      rewrite <- app_assoc. reflexivity.
Qed.

(** X10.  Credential rotation: when the remote side refuses every key of
    a leading stretch of the pool with 401 or 403 and serves the next key
    with a JSON body, the rotation returns that body after exactly one
    request per refused key (a refused key is not retried) and one for
    the key that is served; the keys after it are not used. *)
Theorem rotation_skips_refused_keys :
  forall (payload : list (str * json)) (bad : list str) (good : str) (rest : list str)
         (retries : nat) (backoff_seconds : Z) (w : world) (data : json),
    (forall n key, In key bad -> exists resp,
        result (w_upstream w n (openrouter_request (base_headers w) key payload))
          = Response resp
        /\ (status_code resp = 401 \/ status_code resp = 403)) ->
    (forall n, exists resp,
        result (w_upstream w n (openrouter_request (base_headers w) good payload))
          = Response resp
        /\ status_code resp = 200 /\ json_value resp = Some data) ->
    exists w',
      request_with_rotation payload (bad ++ good :: rest) (S retries) backoff_seconds w
        = (Return data, w')
      /\ w_requests w'
         = w_requests w
             ++ List.map (fun key => openrouter_request (base_headers w) key payload)
                         (bad ++ [good]).
Proof.
  intros payload bad good rest retries backoff w data Hbad Hgood.
  unfold request_with_rotation.
  destruct (rotate_keys_skips_refused (base_headers w) payload retries backoff good rest
              data (w_upstream w) Hgood bad O
              {| last_error := None; attempts_summary := [] |} w eq_refl Hbad)
    as [st' [w' [E Hreq]]].
  destruct (bad ++ good :: rest) eqn:Ek; [destruct bad; discriminate|].
  rewrite E. exists w'. split; [reflexivity|exact Hreq].
Qed.

Lemma rotation_skips_refused_keys_witness :
  exists w',
    request_with_rotation [] ([u "k1"] ++ u "k2" :: [u "k3"]) 2 5
                          (fresh_world two_keys first_key_refused)
      = (Return (completion (JStr (u "hi there"))), w')
    /\ w_requests w'
       = w_requests (fresh_world two_keys first_key_refused)
           ++ List.map (fun key =>
                          openrouter_request
                            (base_headers (fresh_world two_keys first_key_refused)) key [])
                       ([u "k1"] ++ [u "k2"]).
Proof.
  apply (rotation_skips_refused_keys
           [] [u "k1"] (u "k2") [u "k3"] 1 5 (fresh_world two_keys first_key_refused)
           (completion (JStr (u "hi there")))).
  - intros n key [<- | []]. eexists. split; [reflexivity|]. left. reflexivity.
  - intros n. eexists. split; [reflexivity|]. split; reflexivity.
Defined.

(** ** Accounting of the model fallback *)

Lemma request_with_rotation_accounted payload api_keys retries backoff w r w' :
  request_with_rotation payload api_keys retries backoff w = (r, w') ->
  exists sent,
    accounted w w' sent (returned r)
    /\ (length sent <= length api_keys * retries)%nat.
Proof.
  unfold request_with_rotation. destruct api_keys as [|k ks] eqn:Ek.
  - intros H. injection H as <- <-. exists [].
    unfold accounted. rewrite app_nil_r. cbn. repeat split; auto; lia.
  - rewrite <- Ek.
    destruct (rotate_keys _ _ _ _ _ _ _ _) as [[r1 st1] w1] eqn:E1.
    destruct (rotate_keys_accounting _ _ _ _ _ _ _ _ _ _ _ E1) as [sent [A [L Er]]].
    destruct r1 as [r1|].
    + intros H. injection H as <- <-. exists sent. split; [|exact L].
      destruct r1; exact A.
    + destruct (_ && _); intros H; injection H as <- <-; exists sent;
        (split; [|exact L]); destruct A as (A1 & A2 & A3 & A4 & A5 & A6);
        cbn [opt_returned] in A3; unfold accounted;
        cbn [returned bump_errors set_metrics w_metrics w_requests w_response_cache
             w_env w_upstream attempts successful_calls];
        repeat split; assumption.
Qed.

Lemma fallback_loop_accounted n payload api_keys :
  forall models le rlo w r le' rlo' w',
    fallback_loop n models payload api_keys le rlo w = (r, le', rlo', w') ->
    exists sent,
      accounted w w' sent (opt_returned r)
      /\ (length sent <= length models * length api_keys)%nat.
Proof.
  induction models as [|model rest IH]; intros le rlo w r le' rlo' w' H.
  - simpl in H. injection H as <- <- <- <-. exists [].
    unfold accounted. rewrite app_nil_r. cbn. repeat split; auto; lia.
  - cbn [fallback_loop] in H.
    destruct (request_with_rotation _ _ _ _ _) as [r1 w1] eqn:E1.
    destruct (request_with_rotation_accounted _ _ _ _ _ _ _ E1) as [s1 [A1 L1]].
    assert (Stop : w' = w1 -> opt_returned r = returned r1 ->
                   exists sent, accounted w w' sent (opt_returned r)
                                /\ (length sent <= length (model :: rest) * length api_keys)%nat).
    { intros -> ->. exists s1. split; [exact A1|]. cbn [length]. lia. }
    destruct r1 as [data|e].
    + injection H as <- <- <- <-. apply Stop; reflexivity.
    + destruct (is_RuntimeError e).
      * destruct (_ && _).
        -- destruct (IH _ _ _ _ _ _ _ H) as [s2 [A2 L2]].
           exists (s1 ++ s2). split; [eapply accounted_trans; eauto|].
           rewrite length_app. cbn [length]. lia.
        -- injection H as <- <- <- <-. apply Stop; reflexivity.
      * injection H as <- <- <- <-. apply Stop; reflexivity.
Qed.

(** X12.  Whatever the remote side answers, [try_models_with_fallback]
    sends at most [len(models) * len(api_keys)] requests (one attempt per
    key and model), [attempts] grows by exactly the number sent,
    [successful_calls] grows by one exactly when a value is returned, and
    the response cache is not touched. *)
Theorem fallback_accounting :
  forall (models : list str) (payload : list (str * json)) (api_keys : list str)
         (w : world),
    let r := fst (try_models_with_fallback models payload api_keys w) in
    let w' := snd (try_models_with_fallback models payload api_keys w) in
    exists sent,
      w_requests w' = w_requests w ++ sent
      /\ (length sent <= length models * length api_keys)%nat
      /\ attempts (get_metrics w') = attempts (get_metrics w) + Z.of_nat (length sent)
      /\ successful_calls (get_metrics w')
         = successful_calls (get_metrics w) + (if returned r then 1 else 0)
      /\ w_response_cache w' = w_response_cache w.
Proof.
  intros models payload api_keys w. cbv zeta. unfold try_models_with_fallback.
  destruct (fallback_loop _ _ _ _ _ _ _) as [[[r1 le] rlo] w1] eqn:E.
  destruct (fallback_loop_accounted _ _ _ _ _ _ _ _ _ _ _ E)
    as [sent [(A1 & A2 & A3 & A4 & A5 & A6) L]].
  exists sent. unfold get_metrics.
  destruct r1 as [[data|e]|]; cbn [fst snd returned opt_returned] in *.
  - repeat split; auto.
  - repeat split; auto.
  - destruct (_ && _); cbn [fst snd returned]; repeat split; auto.
Qed.

(** ** Exponential backoff *)





(** ** Classifier and registry *)



Lemma classify_task_range (prompt : str) (image_url : option str) :
  In (classify_task prompt image_url)
     [u "research"; u "code"; u "image_reason"; u "general"].
Proof.
  unfold classify_task.
  destruct (any_in research_terms _); [left; reflexivity|].
  destruct (any_in code_terms _); [right; left; reflexivity|].
  destruct (opt_truthy _); [right; right; left; reflexivity|].
  right; right; right; left; reflexivity.
Qed.

(** X15.  Every category the classifier can return has an entry in
    [MODEL_PREFERENCES] with three models, so the
    [or [DEFAULT_FALLBACK_MODEL]] default of [generate_response] is never
    used; [pick_model] returns the first of the three, and
    [DEFAULT_FALLBACK_MODEL] is always one of the other two. *)
Theorem every_category_has_three_models :
  forall (prompt : str) (image_url : option str) (w : world),
    let task_type := classify_task prompt image_url in
    exists m1 m2 m3,
      models_or w task_type [DEFAULT_FALLBACK_MODEL] = [m1; m2; m3]
      /\ pick_model w task_type = m1
      /\ In DEFAULT_FALLBACK_MODEL [m2; m3]
      /\ In task_type [u "research"; u "code"; u "image_reason"; u "general"].
Proof.
  intros prompt image_url w task_type.
  pose proof (classify_task_range prompt image_url) as R. fold task_type in R.
  assert (H : exists m1 m2 m3,
             preferences_get (MODEL_PREFERENCES w) task_type = Some [m1; m2; m3]
             /\ In DEFAULT_FALLBACK_MODEL [m2; m3]).
  { destruct R as [<- | [<- | [<- | [<- | []]]]];
      eexists _, _, _; (split; [reflexivity|]); vm_compute; tauto. }
  destruct H as [m1 [m2 [m3 [E Hd]]]]. exists m1, m2, m3.
  unfold pick_model, models_or. rewrite E. auto.
Qed.

(** ** The shape of cleaned text *)

Lemma split_on_nonempty c s : split_on c s <> [].
Proof.
  induction s as [|x s IH]; simpl; [discriminate|].
  destruct (N.eqb x c); [discriminate|]. destruct (split_on c s); discriminate.
Qed.

Lemma split_on_no_sep c s : Forall (fun l => ~ In c l) (split_on c s).
Proof.
  induction s as [|x s IH]; simpl.
  - constructor; [tauto|constructor].
  - destruct (N.eqb_spec x c) as [->|Hne].
    + constructor; [tauto|exact IH].
    + destruct (split_on c s) as [|l ls]; [constructor; [|constructor]|].
      * intros [H|[]]. congruence.
      * inversion IH as [|? ? Hl Hls]; subst. constructor; [|exact Hls].
        intros [H|H]; [congruence|tauto].
Qed.

Lemma split_on_one c (t : str) : ~ In c t -> split_on c t = [t].
Proof.
  induction t as [|x t IHt]; intros Hx; simpl; [reflexivity|].
  destruct (N.eqb_spec x c) as [->|Hn]; [exfalso; apply Hx; left; reflexivity|].
  rewrite IHt; [reflexivity|]. intros H. apply Hx. right. exact H.
Qed.

Lemma split_on_app_sep c (l rest : str) :
  ~ In c l -> split_on c (l ++ c :: rest) = l :: split_on c rest.
Proof.
  induction l as [|x l IHl]; intros Hl; simpl.
  - rewrite N.eqb_refl. reflexivity.
  - destruct (N.eqb_spec x c) as [->|Hn]; [exfalso; apply Hl; left; reflexivity|].
    rewrite IHl; [reflexivity|]. intros H. apply Hl. right. exact H.
Qed.

Lemma split_on_join c (ls : list str) :
  ls <> [] -> Forall (fun l => ~ In c l) ls -> split_on c (join [c] ls) = ls.
Proof.
  induction ls as [|l ls IH]; intros Hne F; [congruence|].
  inversion F as [|? ? Hl Hls]; subst.
  destruct ls as [|l2 ls].
  - simpl. apply split_on_one, Hl.
  - change (join [c] (l :: l2 :: ls)) with (l ++ c :: join [c] (l2 :: ls)).
    rewrite split_on_app_sep by exact Hl.
    rewrite IH; [reflexivity|discriminate|exact Hls].
Qed.

Lemma rstrip_prefix (s : str) : exists t, s = rstrip s ++ t.
Proof.
  induction s as [|c s [t IH]]; simpl; [exists []; reflexivity|].
  destruct (rstrip s) as [|d r] eqn:E.
  - destruct (isspace c).
    + exists (c :: s). reflexivity.
    + exists s. reflexivity.
  - exists t. simpl. f_equal. exact IH.
Qed.

Lemma rstrip_no_sep c (s : str) : ~ In c s -> ~ In c (rstrip s).
Proof.
  intros H Hin. destruct (rstrip_prefix s) as [t E]. apply H. rewrite E.
  apply in_or_app. left. exact Hin.
Qed.

Lemma lstrip_rstrip_nil (s : str) : rstrip s = [] -> lstrip s = [].
Proof.
  induction s as [|c s IH]; simpl; [reflexivity|].
  destruct (rstrip s) as [|d r]; [|discriminate].
  destruct (isspace c); [intros _; apply IH; reflexivity|discriminate].
Qed.

Lemma rstrip_lstrip_nil (s : str) : lstrip s = [] -> rstrip s = [].
Proof.
  induction s as [|c s IH]; simpl; [reflexivity|].
  destruct (isspace c) eqn:E; [|discriminate].
  intros H. rewrite (IH H). reflexivity.
Qed.

Lemma strip_nil_iff (s : str) : strip s = [] <-> rstrip s = [].
Proof.
  unfold strip. split.
  - intros H. apply rstrip_lstrip_nil.
    destruct (lstrip s) as [|c t] eqn:E; [reflexivity|].
    pose proof (lstrip_head s) as Hh. rewrite E in Hh.
    simpl in H. destruct (rstrip t); [rewrite Hh in H|]; discriminate.
  - intros H. rewrite (lstrip_rstrip_nil s H). reflexivity.
Qed.

Lemma blank_rstrip (s : str) : blank (rstrip s) <-> blank s.
Proof. unfold blank. rewrite !strip_nil_iff, rstrip_idem. reflexivity. Qed.

Lemma truthy_strip_false (s : str) : truthy (strip s) = false <-> blank s.
Proof. unfold blank. destruct (strip s); simpl; split; congruence. Qed.

Lemma no_double_blank_snoc (ls : list str) (x : str) :
  no_double_blank ls -> ~ (ls <> [] /\ blank (List.last ls []) /\ blank x) ->
  no_double_blank (ls ++ [x]).
Proof.
  induction ls as [|a ls IH]; intros H Hx; simpl; [auto|].
  destruct H as [H1 H2]. split.
  - destruct ls as [|b ls']; simpl.
    + intros [Ha Hb]. apply Hx. split; [discriminate|]. split; assumption.
    + exact H1.
  - apply IH; [exact H2|]. intros [Hne [Hl Hb]]. apply Hx.
    split; [discriminate|]. split; [|exact Hb].
    destruct ls; [congruence|exact Hl].
Qed.

Lemma collect_lines_tidy :
  forall lines acc,
    Forall (fun l => ~ In NL l) lines ->
    Forall (fun l => rstrip l = l /\ ~ In NL l) acc -> no_double_blank acc ->
    Forall (fun l => rstrip l = l /\ ~ In NL l) (collect_lines lines acc)
    /\ no_double_blank (collect_lines lines acc).
Proof.
  induction lines as [|line rest IH]; intros acc Fl Fa Na; simpl; [auto|].
  inversion Fl as [|? ? Hl Hrest]; subst.
  destruct (truthy (strip line) || truthy (strip (List.last acc []))) eqn:E.
  - apply IH; [exact Hrest| |].
    + apply Forall_app. split; [exact Fa|].
      constructor; [|constructor]. split; [apply rstrip_idem|apply rstrip_no_sep, Hl].
    + apply no_double_blank_snoc; [exact Na|].
      intros [_ [H1 H2]]. apply (proj1 (blank_rstrip line)) in H2.
      apply (proj2 (truthy_strip_false _)) in H1.
      apply (proj2 (truthy_strip_false _)) in H2.
      rewrite H1, H2 in E. discriminate.
  - apply IH; assumption.
Qed.

Lemma drop_blank_head_spec (ls : list str) :
  exists pre, ls = pre ++ drop_blank_head ls
              /\ ~ (drop_blank_head ls <> [] /\ blank (List.hd [] (drop_blank_head ls))).
Proof.
  induction ls as [|l ls [pre [E H]]]; simpl.
  - exists []. split; [reflexivity|]. intros [H _]. congruence.
  - destruct (truthy (strip l)) eqn:T.
    + exists []. split; [reflexivity|]. intros [_ Hb]. simpl in Hb.
      apply (proj2 (truthy_strip_false _)) in Hb. congruence.
    + exists (l :: pre). split; [simpl; f_equal; exact E|exact H].
Qed.

Lemma drop_blank_tail_spec (ls : list str) :
  exists post, ls = drop_blank_tail ls ++ post
               /\ ~ (drop_blank_tail ls <> [] /\ blank (List.last (drop_blank_tail ls) [])).
Proof.
  induction ls as [|l ls [post [E H]]]; simpl.
  - exists []. split; [reflexivity|]. intros [H _]. congruence.
  - destruct (drop_blank_tail ls) as [|d r] eqn:D.
    + destruct (truthy (strip l)) eqn:T.
      * exists ls. split; [reflexivity|]. intros [_ Hb]. simpl in Hb.
        apply (proj2 (truthy_strip_false _)) in Hb. congruence.
      * exists (l :: ls). split; [reflexivity|]. intros [Hn _]. congruence.
    + exists post. split; [simpl; f_equal; exact E|].
      intros [_ Hb]. apply H. split; [discriminate|exact Hb].
Qed.

Lemma no_double_blank_app_l (a b : list str) :
  no_double_blank (a ++ b) -> no_double_blank a.
Proof.
  induction a as [|x a IH]; simpl; [auto|]. intros [H1 H2]. split; [|apply IH, H2].
  destruct a as [|y a']; [exact I|exact H1].
Qed.

Lemma no_double_blank_app_r (a b : list str) :
  no_double_blank (a ++ b) -> no_double_blank b.
Proof. induction a as [|x a IH]; simpl; [auto|]. intros [_ H2]. apply IH, H2. Qed.

(** The last steps of [clean_markdown_formatting] turn any text into tidy
    lines. *)
Lemma final_lines_tidy (text : str) :
  let ls := drop_blank_tail (drop_blank_head (collect_lines (split_on NL text) [])) in
  join [NL] ls = [] \/ (split_on NL (join [NL] ls) = ls /\ tidy_lines ls).
Proof.
  intros ls.
  destruct (collect_lines_tidy (split_on NL text) [] (split_on_no_sep NL text)
              ltac:(constructor) I) as [F N].
  destruct (drop_blank_head_spec (collect_lines (split_on NL text) [])) as [pre [E1 H1]].
  destruct (drop_blank_tail_spec (drop_blank_head (collect_lines (split_on NL text) [])))
    as [post [E2 H2]].
  fold ls in E2, H2.
  rewrite E1 in F, N. apply Forall_app in F as [_ F]. apply no_double_blank_app_r in N.
  rewrite E2 in F, N. apply Forall_app in F as [F _]. apply no_double_blank_app_l in N.
  destruct ls as [|l ls'] eqn:El; [left; reflexivity|]. right. rewrite <- El in *.
  assert (Hne : ls <> []) by (rewrite El; discriminate).
  split.
  - apply split_on_join; [exact Hne|]. eapply Forall_impl; [exact F|]. intros x [_ H]. exact H.
  - split; [eapply Forall_impl; [exact F|]; intros x [H _]; exact H|].
    split; [exact N|]. split.
    + intros Hb. apply H1. rewrite E2. split.
      * rewrite El. discriminate.
      * rewrite El in *. exact Hb.
    + intros Hb. apply H2. split; assumption.
Qed.

Lemma clean_markdown_formatting_tail (text : str) :
  text <> [] ->
  exists text',
    clean_markdown_formatting text
    = join [NL] (drop_blank_tail (drop_blank_head (collect_lines (split_on NL text') []))).
Proof.
  intros Hne. unfold clean_markdown_formatting.
  destruct text as [|c t]; [congruence|]. cbn [truthy negb].
  destruct (Re.sub_with re_fenced save_code_block [] (c :: t)) as [cb1 t1].
  destruct (Re.sub_with re_inline save_code_block cb1 t1) as [cb2 t2].
  eexists. reflexivity.
Qed.

(** X16.  Whatever the input, the text [clean_markdown_formatting]
    returns is empty or made of tidy lines: no line ends in white space,
    there are never two blank lines in a row, and the text neither begins
    nor ends with a blank line. *)
Theorem cleaned_text_is_tidy :
  forall (text : str),
    clean_markdown_formatting text = []
    \/ tidy_lines (split_on NL (clean_markdown_formatting text)).
Proof.
  intros text. destruct text as [|c t] eqn:E; [left; reflexivity|]. rewrite <- E.
  destruct (clean_markdown_formatting_tail text ltac:(rewrite E; discriminate))
    as [text' ->].
  destruct (final_lines_tidy text') as [H | [H1 H2]]; [left; exact H|].
  right. rewrite H1. exact H2.
Qed.

(** ** Patterns that cannot match *)

Lemma match_here_needs (P : char -> Prop) :
  forall pat, Exists (atom_needs P) pat ->
  forall prev s pos gs g,
    Forall (fun x => ~ P x) s -> Re.match_here pat prev s pos gs g = None.
Proof.
  induction pat as [|a pat IH]; intros Hex; [inversion Hex|].
  apply Exists_cons in Hex as [Ha | Hpat].
  - destruct a as [c|cls lo hi greedy| | | |]; try (destruct Ha); intros prev s pos gs g F.
    + cbn [Re.match_here]. destruct s as [|x s']; [reflexivity|].
      destruct (N.eqb_spec x c) as [->|Hne]; [|reflexivity].
      inversion F; subst. tauto.
    + cbn [Re.match_here].
      assert (L : Nat.leb lo 0 = false) by (apply Nat.leb_gt; lia).
      destruct s as [|x s'].
      * destruct greedy; rewrite L; reflexivity.
      * assert (C : cls x = false).
        { destruct (cls x) eqn:E; [|reflexivity]. inversion F; subst.
          exfalso. eauto. }
        destruct greedy; rewrite L, C; reflexivity.
  - specialize (IH Hpat).
    destruct a as [c|cls lo hi greedy| | | |]; intros prev s pos gs g F;
      cbn [Re.match_here].
    + destruct s as [|x s']; [reflexivity|]. inversion F; subst.
      destruct (N.eqb x c); [apply IH; assumption|reflexivity].
    + generalize O. revert prev pos F.
      destruct greedy;
        (induction s as [|x s' IHs]; intros prev pos F n;
         [ rewrite (IH prev [] pos gs g F); destruct (Nat.leb lo n); reflexivity
         | inversion F as [|? ? Hx Hs]; subst;
           specialize (IHs (Some x) (S pos) Hs (S n));
           simpl; rewrite (IH prev (x :: s') pos gs g F);
           destruct (cls x && Re.below hi n); destruct (Nat.leb lo n);
           try reflexivity; try exact IHs;
           match goal with
           | |- context [match ?t with Some _ => _ | None => _ end] =>
               destruct t eqn:E;
               [ exfalso; pose proof (eq_trans (eq_sym E) IHs) as X; discriminate X
               | reflexivity ]
           end ]).
    + destruct prev as [p|]; [destruct (N.eqb p NL)|]; try reflexivity; apply IH; exact F.
    + destruct s as [|x s']; [|destruct (N.eqb x NL)]; try reflexivity; apply IH; exact F.
    + apply IH; exact F.
    + apply IH; exact F.
Qed.

Lemma never_matches_needs (P : char -> Prop) pat :
  Exists (atom_needs P) pat ->
  forall s prev, Forall (fun x => ~ P x) s -> never_matches pat prev s.
Proof.
  intros Hex. induction s as [|c s IH]; intros prev F; simpl; [exact I|].
  split; [apply (match_here_needs P); assumption|].
  inversion F; subst. apply IH. assumption.
Qed.

Lemma sub_from_never {St} pat (repl : St -> str -> str -> St * str) :
  forall s prev st, never_matches pat prev s -> Re.sub_from pat repl s prev O st = (st, s).
Proof.
  induction s as [|c s IH]; intros prev st H; simpl; [reflexivity|].
  destruct H as [H1 H2]. rewrite H1, (IH _ _ H2). reflexivity.
Qed.

Lemma sub_with_never {St} pat (repl : St -> str -> str -> St * str) st s :
  never_matches pat None s -> Re.sub_with pat repl st s = (st, s).
Proof. apply sub_from_never. Qed.

Lemma sub_never pat template s : never_matches pat None s -> Re.sub pat template s = s.
Proof. intros H. unfold Re.sub. rewrite sub_with_never by exact H. reflexivity. Qed.

(** A pattern anchored at the start of a line cannot match in the middle
    of a line. *)
Lemma never_matches_bol rest :
  forall s p, p <> NL -> Forall (fun x => x <> NL) s ->
  never_matches (Re.Bol :: rest) (Some p) s.
Proof.
  induction s as [|c s IH]; intros p Hp F; simpl; [exact I|].
  inversion F; subst. split; [|apply IH; assumption].
  destruct (N.eqb_spec p NL); [congruence|reflexivity].
Qed.

(** What a substitution writes comes from the text or the replacements. *)
Lemma sub_from_Forall (P : char -> Prop) pat template :
  (forall g, Forall P (template g)) ->
  forall s prev skip,
    Forall P s ->
    Forall P (snd (Re.sub_from pat (fun (st : unit) _ g1 => (st, template g1))
                               s prev skip tt)).
Proof.
  intros Ht. induction s as [|c s IH]; intros prev skip F; simpl; [constructor|].
  inversion F as [|? ? Hc Hs]; subst.
  destruct skip as [|k]; [|apply IH; exact Hs].
  destruct (Re.match_here pat prev (c :: s) 0 None None) as [[[|len] g]|]; cbn;
    match goal with
    | |- context [let '(a, b) := ?t in _] =>
        assert (H : Forall P (snd t)) by (apply IH; exact Hs);
        destruct t as [st2 rest]
    end; cbn in *.
  - apply Forall_app. split; [apply Ht|]. constructor; assumption.
  - apply Forall_app. split; [apply Ht|exact H].
  - constructor; assumption.
Qed.
(** ** Text that the cleanup does not touch *)

Lemma lstrip_length (s : str) : (length (lstrip s) <= length s)%nat.
Proof.
  induction s as [|c s IH]; simpl; [lia|]. destruct (isspace c); simpl; lia.
Qed.

Lemma lstrip_same_length (s : str) : length (lstrip s) = length s -> lstrip s = s.
Proof.
  destruct s as [|c s]; simpl; [reflexivity|].
  destruct (isspace c); [|reflexivity].
  pose proof (lstrip_length s). lia.
Qed.

Lemma rstrip_length (s : str) : (length (rstrip s) <= length s)%nat.
Proof.
  destruct (rstrip_prefix s) as [t E]. rewrite E at 2. rewrite length_app. lia.
Qed.

Lemma strip_fixed (t : str) : strip t = t -> lstrip t = t /\ rstrip t = t.
Proof.
  intros H. unfold strip in H.
  assert (L : lstrip t = t).
  { apply lstrip_same_length. pose proof (rstrip_length (lstrip t)) as A.
    pose proof (lstrip_length t) as B. rewrite H in A. lia. }
  split; [exact L|]. rewrite L in H. exact H.
Qed.

Lemma lstrip_fixed_head (c : char) (t : str) : lstrip (c :: t) = c :: t -> isspace c = false.
Proof.
  simpl. destruct (isspace c); [|reflexivity].
  intros H. pose proof (lstrip_length t) as L. rewrite H in L. simpl in L. lia.
Qed.

Lemma restore_code_blocks_nil i text : restore_code_blocks i [] text = text.
Proof. reflexivity. Qed.

Lemma emphasis_needs_marker (m : ascii) (n : nat) :
  Exists (atom_needs (fun c => c = ch m)) (re_emphasis m (S n)).
Proof. left. reflexivity. Qed.

Lemma Forall_markup_free (t : str) (c : char) :
  (c = ch BACKTICK \/ c = ch STAR \/ c = ch UNDERSCORE \/ c = NL) ->
  Forall markup_free t -> Forall (fun x => ~ x = c) t.
Proof.
  intros Hc F. eapply Forall_impl; [exact F|].
  intros x (A & B & C & D) ->. intuition congruence.
Qed.

Lemma fenced_needs_backtick : Exists (atom_needs (fun c => c = ch BACKTICK)) re_fenced.
Proof. left. reflexivity. Qed.

Lemma inline_needs_backtick : Exists (atom_needs (fun c => c = ch BACKTICK)) re_inline.
Proof. left. reflexivity. Qed.

Lemma blank_run_needs_newline : Exists (atom_needs (fun c => c = NL)) re_blank_run.
Proof.
  left. split; [lia|]. intros x H. apply N.eqb_eq. exact H.
Qed.

Lemma never_matches_line_start rest (c : char) (t : str) :
  Re.match_here (Re.Bol :: rest) None (c :: t) O None None = None ->
  Forall (fun x => x <> NL) (c :: t) ->
  never_matches (Re.Bol :: rest) None (c :: t).
Proof.
  intros H F. inversion F; subst. split; [exact H|].
  apply never_matches_bol; assumption.
Qed.

Lemma clean_plain_text (t : str) : plain_text t -> clean_markdown_formatting t = t.
Proof.
  revert t. intros t (Hs & F & Hh).
  destruct t as [|c t]; [contradiction|].
  destruct Hh as (Hhash & Hbul & Hdig).
  destruct (strip_fixed _ Hs) as [Hl Hr].
  pose proof (lstrip_fixed_head _ _ Hl) as Hsp.
  set (s := c :: t) in *.
  assert (Fnl : Forall (fun x => x <> NL) s).
  { apply Forall_markup_free; [|exact F]. tauto. }
  unfold clean_markdown_formatting.
  replace (negb (truthy s)) with false by reflexivity.
  rewrite (sub_with_never re_fenced)
    by (apply (never_matches_needs _ _ fenced_needs_backtick);
        apply Forall_markup_free; [tauto|exact F]).
  rewrite (sub_with_never re_inline)
    by (apply (never_matches_needs _ _ inline_needs_backtick);
        apply Forall_markup_free; [tauto|exact F]).
  cbv zeta.
  assert (Hheader : never_matches re_header None s).
  { apply never_matches_line_start; [|exact Fnl].
    cbn -[Re.only]. replace (Re.only "#" c) with false; [reflexivity|].
    symmetry. apply N.eqb_neq. exact Hhash. }
  assert (Hbullet : never_matches re_bullet None s).
  { apply never_matches_line_start; [|exact Fnl].
    cbn -[isspace bullet_marker]. rewrite Hsp, Hbul. reflexivity. }
  assert (Hnumbered : never_matches re_numbered None s).
  { apply never_matches_line_start; [|exact Fnl].
    cbn -[isspace Re.digit]. rewrite Hsp, Hdig. reflexivity. }
  assert (Hstar : forall n, never_matches (re_emphasis STAR (S n)) None s).
  { intros n. apply (never_matches_needs _ _ (emphasis_needs_marker STAR n)).
    apply Forall_markup_free; [tauto|exact F]. }
  assert (Hund : forall n, never_matches (re_emphasis UNDERSCORE (S n)) None s).
  { intros n. apply (never_matches_needs _ _ (emphasis_needs_marker UNDERSCORE n)).
    apply Forall_markup_free; [tauto|exact F]. }
  rewrite (sub_never re_header) by exact Hheader.
  rewrite (sub_never (re_emphasis STAR 3) _ s) by apply Hstar.
  rewrite (sub_never (re_emphasis STAR 2) _ s) by apply Hstar.
  rewrite (sub_never (re_emphasis STAR 1) _ s) by apply Hstar.
  rewrite (sub_never (re_emphasis UNDERSCORE 2) _ s) by apply Hund.
  rewrite (sub_never (re_emphasis UNDERSCORE 1) _ s) by apply Hund.
  rewrite (sub_never re_bullet) by exact Hbullet.
  rewrite (sub_never re_numbered) by exact Hnumbered.
  rewrite (sub_never re_blank_run)
    by (apply (never_matches_needs _ _ blank_run_needs_newline); exact Fnl).
  rewrite restore_code_blocks_nil.
  rewrite split_on_one.
  2:{ intros Hin. apply list_elem_of_In in Hin.
      rewrite Forall_forall in Fnl. exact (Fnl _ Hin eq_refl). }
  cbn [collect_lines List.last app]. rewrite Hs, Hr.
  replace (truthy s) with true by reflexivity. cbn [orb drop_blank_head].
  rewrite Hs. replace (truthy s) with true by reflexivity.
  cbn [drop_blank_tail]. rewrite Hs. reflexivity.
Qed.

(** X17.  A single line of text without markup, with no surrounding white
    space and a first character that opens no header, bullet or numbered
    item, comes out of [clean_markdown_formatting] unchanged. *)
Theorem plain_text_is_left_alone :
  forall (t : str), plain_text t -> clean_markdown_formatting t = t.
Proof. exact clean_plain_text. Qed.

Lemma plain_text_is_left_alone_witness :
  plain_text (u "Paris is the capital of France.")
  /\ clean_markdown_formatting (u "Paris is the capital of France.")
     = u "Paris is the capital of France.".
Proof.
  assert (H : plain_text (u "Paris is the capital of France.")).
  { split; [vm_compute; reflexivity|]. split.
    - repeat constructor; intros E; vm_compute in E; discriminate E.
    - vm_compute. repeat split; intros E; discriminate E. }
  split; [exact H|]. apply (plain_text_is_left_alone _ H).
Defined.
(** ** Extracting the assistant's text *)

Lemma extract_string_content (result : json) (s : str) :
  message_content result (JStr s) -> s <> [] ->
  extract_assistant_text result = clean_markdown_formatting s.
Proof.
  intros (d & c0 & others & m & -> & Hc & Hm & Hs) Hne.
  unfold extract_assistant_text, extract_assistant_text_body.
  cbn [py_get bind]. rewrite Hc. cbn [or_else json_truthy negb py_first bind py_get].
  rewrite Hm. cbn [py_get bind]. rewrite Hs.
  destruct s as [|a s]; [congruence|]. reflexivity.
Qed.

(** X18.  When the first choice of a completion carries a message whose
    content is one line of plain text, [extract_assistant_text] returns
    that content as it is, whatever else the payload holds. *)
Theorem plain_answer_is_extracted_verbatim :
  forall (result : json) (s : str),
    message_content result (JStr s) -> plain_text s ->
    extract_assistant_text result = s.
Proof.
  intros result s Hm Hp.
  rewrite (extract_string_content result s Hm).
  - apply clean_plain_text. exact Hp.
  - destruct Hp as (_ & _ & H). destruct s; [contradiction|discriminate].
Qed.

Lemma plain_answer_is_extracted_verbatim_witness :
  let result :=
    JDict [ (u "id", JStr (u "gen-1"));
            (u "choices",
              JList [ JDict [ (u "index", JInt 0);
                              (u "message",
                                JDict [ (u "role", JStr (u "assistant"));
                                        (u "content", JStr (u "Paris.")) ]) ] ]) ] in
  message_content result (JStr (u "Paris."))
  /\ plain_text (u "Paris.")
  /\ extract_assistant_text result = u "Paris.".
Proof.
  intros result.
  assert (Hm : message_content result (JStr (u "Paris."))).
  { do 4 eexists. split; [reflexivity|]. split; [vm_compute; reflexivity|].
    split; vm_compute; reflexivity. }
  assert (Hp : plain_text (u "Paris.")).
  { split; [vm_compute; reflexivity|]. split.
    - repeat constructor; intros E; vm_compute in E; discriminate E.
    - vm_compute. repeat split; intros E; discriminate E. }
  split; [exact Hm|]. split; [exact Hp|].
  apply (plain_answer_is_extracted_verbatim result _ Hm Hp).
Defined.

(** ** White space only *)

Lemma split_on_Forall (P : char -> Prop) c s :
  Forall P s -> Forall (Forall P) (split_on c s).
Proof.
  induction s as [|x s IH]; intros F; simpl.
  - repeat constructor.
  - inversion F as [|? ? Hx Hs]; subst. specialize (IH Hs).
    destruct (N.eqb x c).
    + constructor; [constructor|exact IH].
    + destruct (split_on c s) as [|l ls]; [repeat constructor; exact Hx|].
      inversion IH; subst. constructor; [constructor; assumption|assumption].
Qed.

Lemma lstrip_spaces (s : str) : Forall (fun c => isspace c = true) s -> lstrip s = [].
Proof.
  induction s as [|c s IH]; intros F; simpl; [reflexivity|].
  inversion F as [|? ? Hc Hs]; subst. rewrite Hc. apply IH. exact Hs.
Qed.

Lemma strip_spaces (s : str) : Forall (fun c => isspace c = true) s -> strip s = [].
Proof. intros F. unfold strip. rewrite (lstrip_spaces s F). reflexivity. Qed.

Lemma collect_lines_blank (ls : list str) :
  Forall (fun l => strip l = []) ls -> collect_lines ls [] = [].
Proof.
  induction ls as [|l ls IH]; intros F; simpl; [reflexivity|].
  inversion F as [|? ? Hl Hls]; subst. rewrite Hl. simpl. apply IH. exact Hls.
Qed.

Lemma spaces_lack_visible (s : str) :
  Forall (fun c => isspace c = true) s -> Forall (fun x => ~ isspace x = false) s.
Proof.
  intros F. eapply Forall_impl; [exact F|]. intros x H. simpl. congruence.
Qed.

Lemma header_needs_visible : Exists (atom_needs (fun c => isspace c = false)) re_header.
Proof.
  right. left. split; [lia|]. intros x H. apply N.eqb_eq in H. subst. reflexivity.
Qed.

Lemma bullet_needs_visible : Exists (atom_needs (fun c => isspace c = false)) re_bullet.
Proof.
  right. right. left. split; [lia|]. intros x H. unfold bullet_marker in H.
  apply orb_true_iff in H as [H|H]; [apply orb_true_iff in H as [H|H]|];
    apply N.eqb_eq in H; subst; reflexivity.
Qed.

Lemma numbered_needs_visible : Exists (atom_needs (fun c => isspace c = false)) re_numbered.
Proof. do 5 right. left. reflexivity. Qed.

Lemma clean_blank_text (s : str) :
  Forall (fun c => isspace c = true) s -> clean_markdown_formatting s = [].
Proof.
  intros F. pose proof (spaces_lack_visible s F) as V.
  unfold clean_markdown_formatting.
  destruct (negb (truthy s)) eqn:T; [destruct s; [reflexivity|discriminate]|].
  rewrite (sub_with_never re_fenced)
    by (apply (never_matches_needs (fun c => isspace c = false)); [left; reflexivity|exact V]).
  rewrite (sub_with_never re_inline)
    by (apply (never_matches_needs (fun c => isspace c = false)); [left; reflexivity|exact V]).
  cbv zeta.
  rewrite (sub_never re_header)
    by (apply (never_matches_needs _ _ header_needs_visible); exact V).
  rewrite (sub_never (re_emphasis STAR 3) _ s)
    by (apply (never_matches_needs (fun c => isspace c = false)); [left; reflexivity|exact V]).
  rewrite (sub_never (re_emphasis STAR 2) _ s)
    by (apply (never_matches_needs (fun c => isspace c = false)); [left; reflexivity|exact V]).
  rewrite (sub_never (re_emphasis STAR 1) _ s)
    by (apply (never_matches_needs (fun c => isspace c = false)); [left; reflexivity|exact V]).
  rewrite (sub_never (re_emphasis UNDERSCORE 2) _ s)
    by (apply (never_matches_needs (fun c => isspace c = false)); [left; reflexivity|exact V]).
  rewrite (sub_never (re_emphasis UNDERSCORE 1) _ s)
    by (apply (never_matches_needs (fun c => isspace c = false)); [left; reflexivity|exact V]).
  rewrite (sub_never re_bullet)
    by (apply (never_matches_needs _ _ bullet_needs_visible); exact V).
  rewrite (sub_never re_numbered)
    by (apply (never_matches_needs _ _ numbered_needs_visible); exact V).
  rewrite restore_code_blocks_nil.
  rewrite collect_lines_blank; [reflexivity|].
  eapply Forall_impl; [apply split_on_Forall|].
  - unfold Re.sub, Re.sub_with.
    apply (sub_from_Forall (fun c => isspace c = true)); [|exact F].
    intros g. repeat constructor.
  - intros l Hl. apply strip_spaces. exact Hl.
Qed.

(** X19.  A completion whose message content is a non-empty string of
    white space only is not replaced by a placeholder:
    [extract_assistant_text] returns the empty string for it. *)
Theorem blank_answer_is_extracted_as_empty :
  forall (result : json) (s : str),
    message_content result (JStr s) -> s <> [] ->
    Forall (fun c => isspace c = true) s ->
    extract_assistant_text result = [].
Proof.
  intros result s Hm Hne F.
  rewrite (extract_string_content result s Hm Hne).
  apply clean_blank_text. exact F.
Qed.

Lemma blank_answer_is_extracted_as_empty_witness :
  message_content (completion (JStr [NL; SP; 9%N])) (JStr [NL; SP; 9%N])
  /\ extract_assistant_text (completion (JStr [NL; SP; 9%N])) = [].
Proof.
  assert (Hm : message_content (completion (JStr [NL; SP; 9%N])) (JStr [NL; SP; 9%N])).
  { do 4 eexists. split; [reflexivity|]. split; [vm_compute; reflexivity|].
    split; vm_compute; reflexivity. }
  split; [exact Hm|].
  apply (blank_answer_is_extracted_as_empty _ _ Hm); [discriminate|].
  repeat constructor.
Defined.

(** ** The first answer of the remote side *)




Section RouterExtras.

Variable generate_research_response :
  str -> option str -> Q -> world -> outcome json * world.
Variable generate_local_response :
  str -> option str -> Q -> world -> outcome json * world.
Variable generate_gemini_response :
  str -> option str -> Q -> world -> outcome json * world.

Local Abbreviation generate_response' :=
  (generate_response generate_research_response generate_local_response
                     generate_gemini_response).






End RouterExtras.




(** ** The direct Gemini client *)

Lemma candidate_loop_unreachable api_key task_type payload rest :
  forall pre st w,
    unreachable_for (length pre) w ->
    exists st' w',
      Gemini.candidate_loop api_key task_type payload (pre ++ rest) st w
      = Gemini.candidate_loop api_key task_type payload rest st' w'
      /\ w_requests w'
         = w_requests w
           ++ List.map (fun c => Gemini.generate_request c api_key payload) pre
      /\ w_upstream w' = w_upstream w
      /\ Gemini.candidate_models st' = Gemini.candidate_models st
      /\ match pre with
         | [] => Gemini.last_err st' = Gemini.last_err st
         | _ => exists e, Gemini.last_err st' = Some (u "Network error: " ++ e)
         end.
Proof.
  induction pre as [|c pre IH]; intros st w H.
  - exists st, w. cbn. rewrite app_nil_r. repeat split; congruence.
  - cbn [app Gemini.candidate_loop]. unfold send.
    destruct (H (length (w_requests w)) (Gemini.generate_request c api_key payload))
      as [e He]; [cbn [length]; lia|].
    rewrite He.
    set (w2 := set_requests _ _).
    set (st2 := Gemini.Build_locals _ _ _ _).
    destruct (IH st2 w2) as (st' & w' & E & Hq & Hu & Hc & Hl).
    { intros n rq Hn. subst w2. cbn [w_requests set_requests] in Hn.
      rewrite length_app in Hn. cbn [length] in Hn.
      change (w_upstream (set_requests _ _)) with (w_upstream w).
      apply H. cbn [length]. lia. }
    exists st', w'. split; [exact E|]. split; [|split; [|split]].
    + rewrite Hq. subst w2. cbn [w_requests set_requests List.map].
      rewrite <- app_assoc. reflexivity.
    + rewrite Hu. reflexivity.
    + rewrite Hc. reflexivity.
    + destruct pre as [|c' pre']; [exists e; rewrite Hl; reflexivity|exact Hl].
Qed.

Lemma gemini_call_tries_candidates prompt temperature model w :
  opt_truthy (getenv w (u "GEMINI_API_KEY")) = true ->
  Gemini.generate_gemini_response prompt None temperature model false w
  = match Gemini.candidate_loop (or_empty (getenv w (u "GEMINI_API_KEY")))
            (classify_task prompt None) (text_only_payload prompt temperature)
            (gemini_candidates model w)
            (Gemini.initial_locals (Gemini.resolve_model model w) w) w with
    | (Some r, _, w') => (r, w')
    | (None, st, w') => (Raise (GeminiError (Gemini.failure_message st)), w')
    end.
Proof.
  intros Hk. unfold Gemini.generate_gemini_response, Gemini.select_api_key.
  rewrite Hk. reflexivity.
Qed.

Lemma map_snoc {A B} (f : A -> B) l x : List.map f (l ++ [x]) = List.map f l ++ [f x].
Proof. apply List.map_app. Qed.

(** X23.  The candidate that answers names the model: when the
    candidates before [c] cannot be reached and the request for [c] is
    answered 200 with JSON, the call returns the normalized response whose
    model is [gemini/c] (not the model asked for), whose text is the
    cleaned extracted text and whose [raw] is the payload, after one
    request per candidate up to [c], in order. *)
Theorem answering_candidate_names_the_model :
  forall (prompt : str) (temperature : Q) (model : str) (w : world)
         (pre post : list str) (c : str) (resp : http_response) (data : json),
    opt_truthy (getenv w (u "GEMINI_API_KEY")) = true ->
    gemini_candidates model w = pre ++ c :: post ->
    unreachable_for (length pre) w ->
    result (w_upstream w (length (w_requests w) + length pre)
              (gemini_request_for prompt temperature w c)) = Response resp ->
    status_code resp = 200 ->
    json_value resp = Some data ->
    exists w',
      Gemini.generate_gemini_response prompt None temperature model false w
      = (Return (normalized (JStr (u "gemini/" ++ c)) (classify_task prompt None)
                            (clean_markdown_formatting (Gemini.extract_gemini_text data))
                            data), w')
      /\ w_requests w'
         = w_requests w
           ++ List.map (gemini_request_for prompt temperature w) (pre ++ [c]).
Proof.
  intros prompt temperature model w pre post c resp data Hk Hc Hu Hr Hs Hj.
  rewrite (gemini_call_tries_candidates _ _ _ _ Hk), Hc.
  destruct (candidate_loop_unreachable
              (or_empty (getenv w (u "GEMINI_API_KEY"))) (classify_task prompt None)
              (text_only_payload prompt temperature) (c :: post) pre
              (Gemini.initial_locals (Gemini.resolve_model model w) w) w Hu)
    as (st' & w' & E & Hq & Hup & _).
  rewrite E. cbn [Gemini.candidate_loop]. unfold send.
  rewrite Hup, Hq, length_app, length_map.
  fold (gemini_request_for prompt temperature w c).
  rewrite Hr. cbv zeta. rewrite Hs, Hj. cbn [Z.eqb Pos.eqb].
  eexists. split; [reflexivity|].
  cbn [w_requests set_requests set_now]. rewrite map_snoc, <- ?List.app_assoc. reflexivity.
Qed.



Lemma preferences_get_In prefs task v :
  preferences_get prefs task = Some v -> exists k, In (k, v) prefs.
Proof.
  induction prefs as [|[k v0] prefs IH]; simpl; [discriminate|].
  destruct (str_eqb k task).
  - intros H. injection H as <-. exists k. left. reflexivity.
  - intros H. destruct (IH H) as [k' Hk']. exists k'. right. exact Hk'.
Qed.

Lemma alternates_distinct :
  List.Forall (fun kv => NoDup (snd kv)) Gemini.alternates_map.
Proof.
  unfold Gemini.alternates_map.
  repeat (apply List.Forall_cons;
          [ apply NoDup_ListNoDup; cbn [snd];
            repeat (apply List.NoDup_cons;
                    [ cbn [In]; intros H;
                      repeat (destruct H as [H|H]; [discriminate H|]); exact H | ]);
            apply List.NoDup_nil | ]).
  apply List.Forall_nil.
Qed.

(** X26.  The candidate list starts with the model asked for and holds no
    model twice, whatever the model is. *)
Theorem gemini_candidates_are_distinct :
  forall (model : str),
    NoDup (Gemini.initial_candidates model)
    /\ List.hd [] (Gemini.initial_candidates model) = model.
Proof.
  intros model. split; [|reflexivity].
  unfold Gemini.initial_candidates.
  destruct (preferences_get Gemini.alternates_map model) as [alts|] eqn:E.
  - assert (Hn : NoDup alts).
    { destruct (preferences_get_In _ _ _ E) as [k Hk].
      pose proof alternates_distinct as F.
      rewrite List.Forall_forall in F. exact (F _ Hk). }
    apply NoDup_cons. split.
    + intros Hin. apply list_elem_of_In in Hin. apply filter_In in Hin as [_ Hneq].
      rewrite (proj2 (str_eqb_eq model model) eq_refl) in Hneq. discriminate.
    + apply NoDup_ListNoDup. apply List.NoDup_filter. apply NoDup_ListNoDup. exact Hn.
  - apply NoDup_singleton.
Qed.

Lemma answering_candidate_names_the_model_witness :
  let w := fresh_world gemini_only flaky_once in
  exists w',
    Gemini.generate_gemini_response (u "hello") None (7 # 10) (u "gemini-2.5-flash")
                                    false w
    = (Return (normalized (JStr (u "gemini/gemini-flash-latest")) (u "general")
                          (u "hi there") (gemini_answer (u "hi there"))), w')
    /\ length (w_requests w') = 2%nat.
Proof.
  intros w.
  destruct (answering_candidate_names_the_model
              (u "hello") (7 # 10) (u "gemini-2.5-flash") w
              [u "gemini-2.5-flash"] [u "gemini-2.5-flash-lite"; u "gemini-2.0-flash"]
              (u "gemini-flash-latest")
              {| status_code := 200; reason := []; resp_headers := [];
                 text := u "{}"; json_value := Some (gemini_answer (u "hi there"));
                 content := encode (u "{}") |}
              (gemini_answer (u "hi there")))
    as (w' & E & Hq).
  - reflexivity.
  - reflexivity.
  - intros n rq Hn. cbn in Hn. assert (n = 0%nat) as -> by lia.
    eexists. reflexivity.
  - reflexivity.
  - reflexivity.
  - reflexivity.
  - exists w'. split; [exact E|]. rewrite Hq. reflexivity.
Defined.



(** ** The text of a Gemini answer *)

Lemma gemini_text_parts_texts (ss : list str) :
  Forall (fun s => s <> []) ss ->
  Gemini.gemini_text_parts (List.map text_part ss) = List.map JStr ss.
Proof.
  induction ss as [|s ss IH]; intros F; [reflexivity|].
  inversion F as [|? ? Hs Hss]; subst.
  cbn [List.map text_part Gemini.gemini_text_parts].
  replace (dict_get [(u "text", JStr s)] (u "text")) with (Some (JStr s))
    by reflexivity.
  cbn [json_truthy]. destruct s as [|c s]; [congruence|]. cbn [truthy].
  f_equal. apply IH. exact Hss.
Qed.

Lemma join_items_strs (ss : list str) : forall i, join_items i (List.map JStr ss) = Return ss.
Proof.
  induction ss as [|s ss IH]; intros i; [reflexivity|].
  cbn [List.map join_items]. rewrite IH. reflexivity.
Qed.

(** X27.  For an answer whose first candidate carries text parts, all
    non-empty, [extract_gemini_text] returns these texts joined by
    newlines, in order, whatever other keys and candidates the answer
    holds. *)
Theorem gemini_text_parts_are_joined :
  forall (d c0 content : list (str * json)) (others : list json) (ss : list str),
    dict_get d (u "candidates") = Some (JList (JDict c0 :: others)) ->
    dict_get c0 (u "content") = Some (JDict content) ->
    dict_get content (u "parts") = Some (JList (List.map text_part ss)) ->
    ss <> [] ->
    Forall (fun s => s <> []) ss ->
    Gemini.extract_gemini_text (JDict d) = join [NL] ss.
Proof.
  intros d c0 content others ss Hc Hcontent Hparts Hne F.
  unfold Gemini.extract_gemini_text, Gemini.extract_gemini_text_body,
    Gemini.py_get_or.
  cbn [py_get bind]. rewrite Hc. cbn [json_truthy negb py_first bind py_get].
  rewrite Hcontent. cbn [py_get bind]. rewrite Hparts.
  destruct ss as [|s ss]; [congruence|].
  cbn [List.map json_truthy negb Gemini.py_iter bind].
  change (text_part s :: List.map text_part ss) with (List.map text_part (s :: ss)).
  rewrite (gemini_text_parts_texts (s :: ss) F).
  cbn [List.map]. 
  change (JStr s :: List.map JStr ss) with (List.map JStr (s :: ss)).
  rewrite join_items_strs. reflexivity.
Qed.

Lemma gemini_text_parts_are_joined_witness :
  Gemini.extract_gemini_text
    (JDict [ (u "candidates",
               JList [ JDict [ (u "content",
                                 JDict [ (u "role", JStr (u "model"));
                                         (u "parts",
                                           JList [ text_part (u "one");
                                                   text_part (u "two") ]) ]);
                               (u "finishReason", JStr (u "STOP")) ] ]) ])
  = u "one" ++ [NL] ++ u "two".
Proof.
  eapply (gemini_text_parts_are_joined _ _ _ _ [u "one"; u "two"]).
  - reflexivity.
  - reflexivity.
  - reflexivity.
  - discriminate.
  - repeat constructor; discriminate.
Defined.

(** ** The second chance of the default model *)




Section SecondChance.

Variable generate_research_response :
  str -> option str -> Q -> world -> outcome json * world.
Variable generate_local_response :
  str -> option str -> Q -> world -> outcome json * world.
Variable generate_gemini_response :
  str -> option str -> Q -> world -> outcome json * world.

Local Abbreviation generate_response' :=
  (generate_response generate_research_response generate_local_response
                     generate_gemini_response).


End SecondChance.


(** ** The image of a Gemini request *)

(** X29.  When the image cannot be downloaded (network error, or a 4xx
    or 5xx status), the Gemini client raises [GeminiError] with the text
    "Failed to fetch image for Gemini: ..." after that one download
    request: no generation request is sent for any candidate. *)
Theorem image_failure_stops_gemini_before_any_attempt :
  forall (prompt url : str) (temperature : Q) (model : str) (w : world),
    opt_truthy (getenv w (u "GEMINI_API_KEY")) = true ->
    url <> [] ->
    download_fails (result (w_upstream w (length (w_requests w))
                              (Gemini.image_request url))) ->
    exists msg w',
      Gemini.generate_gemini_response prompt (Some url) temperature model false w
      = (Raise (GeminiError (u "Failed to fetch image for Gemini: " ++ msg)), w')
      /\ w_requests w' = w_requests w ++ [Gemini.image_request url].
Proof.
  intros prompt url temperature model w Hk Hu Hd.
  unfold Gemini.generate_gemini_response, Gemini.select_api_key. rewrite Hk.
  cbv zeta. destruct url as [|c url]; [congruence|].
  cbn [opt_truthy truthy or_empty]. unfold Gemini.fetch_image, send.
  destruct (result _) as [e|resp]; cbn [download_fails] in Hd.
  - eexists _, _. split; reflexivity.
  - unfold Gemini.raise_for_status. cbv zeta.
    destruct ((400 <=? status_code resp) && (status_code resp <? 500)) eqn:E4.
    + eexists _, _. split; reflexivity.
    + assert (E5 : (500 <=? status_code resp) && (status_code resp <? 600) = true).
      { apply andb_false_iff in E4. apply andb_true_iff.
        rewrite Z.leb_le, Z.ltb_lt.
        destruct E4 as [E4|E4]; [apply Z.leb_gt in E4|apply Z.ltb_ge in E4]; lia. }
      rewrite E5. eexists _, _. split; reflexivity.
Qed.

Lemma image_failure_stops_gemini_before_any_attempt_witness :
  let w := fresh_world gemini_only image_missing in
  exists msg w',
    Gemini.generate_gemini_response (u "what is this") (Some (u "http://x/y.png"))
                                    (7 # 10) (u "gemini-2.5-flash") false w
    = (Raise (GeminiError (u "Failed to fetch image for Gemini: " ++ msg)), w')
    /\ w_requests w' = [Gemini.image_request (u "http://x/y.png")].
Proof.
  intros w.
  apply (image_failure_stops_gemini_before_any_attempt
           (u "what is this") (u "http://x/y.png") (7 # 10) (u "gemini-2.5-flash") w).
  - reflexivity.
  - discriminate.
  - change (400 <= 404 < 600). lia.
Defined.

(** ** Bold markers *)

Lemma match_here_greedy_run cls lo rest gs g r tail :
  match tail with x :: _ => cls x = false | [] => True end ->
  forall t, Forall (fun x => cls x = true) t -> (lo <= length t)%nat ->
  forall prev pos,
    (forall p, Re.match_here rest p tail (pos + length t) gs g = Some r) ->
    Re.match_here (Re.Rep cls lo None true :: rest) prev (t ++ tail) pos gs g = Some r.
Proof.
  intros Htail t F Hlo prev pos Hcont. cbn [Re.match_here].
  assert (Hn : (lo <= 0 + length t)%nat) by lia. revert Hn.
  generalize O. revert prev pos Hcont F. clear Hlo.
  induction t as [|x t IH]; intros prev pos Hcont F n Hn.
  - cbn [app length] in *. rewrite Nat.add_0_r in Hn, Hcont.
    apply Nat.leb_le in Hn.
    destruct tail as [|y tail]; simpl; rewrite ?Htail, Hn; cbn [andb]; apply Hcont.
  - inversion F as [|? ? Hx Ht]; subst.
    simpl. rewrite Hx. cbn [andb].
    match goal with
    | |- match ?A with Some _ => _ | None => _ end = _ =>
        assert (HA : A = Some r)
    end.
    { apply IH.
      - intros p. rewrite <- (Hcont p). f_equal. cbn [length]. lia.
      - exact Ht.
      - cbn [length] in Hn. lia. }
    rewrite HA. reflexivity.
Qed.

Lemma sub_from_skip_all {St} pat (repl : St -> str -> str -> St * str) :
  forall s prev skip st,
    (length s <= skip)%nat -> Re.sub_from pat repl s prev skip st = (st, []).
Proof.
  induction s as [|c s IH]; intros prev skip st H; [reflexivity|].
  destruct skip as [|k]; [cbn [length] in H; lia|].
  cbn [Re.sub_from]. apply IH. cbn [length] in H. lia.
Qed.

Lemma never_matches_three_markers (m : char) rest :
  forall t prev,
    Forall (fun x => x <> m) t ->
    never_matches (Re.Lit m :: Re.Lit m :: Re.Lit m :: rest) prev (t ++ [m; m]).
Proof.
  induction t as [|x t IH]; intros prev F.
  - cbn. rewrite !N.eqb_refl. repeat split.
  - inversion F as [|? ? Hx Ht]; subst. cbn [app never_matches]. split.
    + cbn. apply N.eqb_neq in Hx. rewrite Hx. reflexivity.
    + apply IH. exact Ht.
Qed.

Lemma firstn_app_exact {A} (l1 l2 : list A) : firstn (length l1) (l1 ++ l2) = l1.
Proof.
  induction l1 as [|a l1 IH]; cbn; [destruct l2; reflexivity|]. rewrite IH. reflexivity.
Qed.

Lemma match_here_lit c rest prev s pos gs g :
  Re.match_here (Re.Lit c :: rest) prev (c :: s) pos gs g
  = Re.match_here rest (Some c) s (S pos) gs g.
Proof. cbn [Re.match_here]. rewrite N.eqb_refl. reflexivity. Qed.

Lemma match_here_gopen rest prev s pos gs g :
  Re.match_here (Re.GOpen :: rest) prev s pos gs g
  = Re.match_here rest prev s pos (Some pos) g.
Proof. reflexivity. Qed.

Lemma match_here_gclose rest prev s pos a g :
  Re.match_here (Re.GClose :: rest) prev s pos (Some a) g
  = Re.match_here rest prev s pos (Some a) (Some (a, pos)).
Proof. reflexivity. Qed.

Lemma match_here_end prev s pos gs g : Re.match_here [] prev s pos gs g = Some (pos, g).
Proof. reflexivity. Qed.

Lemma clean_bold_text (t : str) :
  plain_text t -> clean_markdown_formatting (u "**" ++ t ++ u "**") = t.
Proof.
  intros Hp. pose proof Hp as (Hs & F & Hh).
  destruct t as [|c t]; [contradiction|].
  set (body := c :: t) in *.
  set (m := ch STAR).
  assert (Fm : Forall (fun x => x <> m) body).
  { apply Forall_markup_free; [|exact F]. tauto. }
  assert (Fnl : Forall (fun x => x <> NL) body).
  { apply Forall_markup_free; [|exact F]. tauto. }
  assert (Fbt : Forall (fun x => x <> ch BACKTICK) body).
  { apply Forall_markup_free; [|exact F]. tauto. }
  change (u "**" ++ body ++ u "**") with (m :: m :: body ++ [m; m]).
  set (s := m :: m :: body ++ [m; m]).
  assert (Fs_nl : Forall (fun x => x <> NL) s).
  { subst s. repeat (constructor; [discriminate|]).
    apply Forall_app. split; [exact Fnl|]. repeat constructor; discriminate. }
  assert (Fs_bt : Forall (fun x => ~ x = ch BACKTICK) s).
  { subst s. repeat (constructor; [discriminate|]).
    apply Forall_app. split; [exact Fbt|]. repeat constructor; discriminate. }
  (* the passes before the bold one leave the text alone *)
  assert (H3 : never_matches (re_emphasis STAR 3) None s).
  { subst s. destruct (proj1 (Forall_cons _ _ _) Fm) as [Hc _].
    apply N.eqb_neq in Hc. subst body.
    cbn [never_matches app]. split; [|split].
    - cbn [re_emphasis repeat app Re.match_here]. fold m.
      rewrite !N.eqb_refl, Hc. reflexivity.
    - cbn [re_emphasis repeat app Re.match_here]. fold m.
      rewrite !N.eqb_refl, Hc. reflexivity.
    - apply (never_matches_three_markers m _ (c :: t)). exact Fm. }
  assert (H2 : Re.sub (re_emphasis STAR 2) (fun g1 => g1) s = body).
  { unfold Re.sub, Re.sub_with. subst s. cbn [Re.sub_from].
    assert (M : Re.match_here (re_emphasis STAR 2) None (m :: m :: body ++ [m; m])
                              0 None None
                = Some (S (S (S (length body + 1))), Some (2, 2 + length body))%nat).
    { cbn [re_emphasis repeat app]. fold m.
      rewrite !match_here_lit, match_here_gopen.
      apply (match_here_greedy_run (Re.except STAR) 1).
      - cbn. reflexivity.
      - eapply Forall_impl; [exact Fm|]. intros x Hx. simpl.
        unfold Re.except. fold m. apply N.eqb_neq in Hx. rewrite Hx. reflexivity.
      - subst body. cbn [length]. lia.
      - intros p. rewrite match_here_gclose, !match_here_lit, match_here_end.
        f_equal. f_equal. lia. }
    rewrite M. cbn [Re.group_text skipn].
    replace (2 + length body - 2)%nat with (length body) by lia.
    change (skipn 0 (body ++ [m; m])) with (body ++ [m; m]).
    rewrite firstn_app_exact.
    rewrite sub_from_skip_all.
    - cbn [snd]. apply (app_nil_r body).
    - cbn [length]. rewrite length_app. cbn [length]. lia. }
  transitivity (clean_markdown_formatting body); [|apply clean_plain_text; exact Hp].
  unfold clean_markdown_formatting.
  replace (negb (truthy s)) with false by reflexivity.
  replace (negb (truthy body)) with false by reflexivity.
  rewrite (sub_with_never re_fenced _ _ s)
    by (apply (never_matches_needs _ _ fenced_needs_backtick); exact Fs_bt).
  rewrite (sub_with_never re_inline _ _ s)
    by (apply (never_matches_needs _ _ inline_needs_backtick); exact Fs_bt).
  rewrite (sub_with_never re_fenced _ _ body)
    by (apply (never_matches_needs _ _ fenced_needs_backtick); exact Fbt).
  rewrite (sub_with_never re_inline _ _ body)
    by (apply (never_matches_needs _ _ inline_needs_backtick); exact Fbt).
  cbv zeta.
  rewrite (sub_never re_header _ s).
  2:{ apply never_matches_line_start; [|exact Fs_nl]. reflexivity. }
  rewrite (sub_never (re_emphasis STAR 3) _ s) by exact H3.
  rewrite H2.
  destruct Hh as (Hhash & _).
  rewrite (sub_never re_header _ body).
  2:{ apply never_matches_line_start; [|exact Fnl].
      cbn -[Re.only]. replace (Re.only "#" c) with false; [reflexivity|].
      symmetry. apply N.eqb_neq. exact Hhash. }
  rewrite (sub_never (re_emphasis STAR 3) _ body)
    by (apply (never_matches_needs _ _ (emphasis_needs_marker STAR 2)); exact Fm).
  rewrite (sub_never (re_emphasis STAR 2) _ body)
    by (apply (never_matches_needs _ _ (emphasis_needs_marker STAR 1)); exact Fm).
  reflexivity.
Qed.

(** X30.  Bold markers around one line of plain text are removed:
    [**t**] is cleaned to [t]. *)
Theorem bold_markers_are_removed :
  forall (t : str),
    plain_text t -> clean_markdown_formatting (u "**" ++ t ++ u "**") = t.
Proof. exact clean_bold_text. Qed.

Lemma bold_markers_are_removed_witness :
  plain_text (u "Paris is the capital.")
  /\ clean_markdown_formatting (u "**Paris is the capital.**")
     = u "Paris is the capital.".
Proof.
  assert (H : plain_text (u "Paris is the capital.")).
  { split; [vm_compute; reflexivity|]. split.
    - repeat constructor; intros E; vm_compute in E; discriminate E.
    - vm_compute. repeat split; intros E; discriminate E. }
  split; [exact H|]. apply (bold_markers_are_removed _ H).
Defined.
